(** * A shallow embedding of the compiler front end (frontendcompiler.cpp)

    The development follows the source file top to bottom: the character
    classes of <cctype>, [Token] and the [Lexer] class, the AST node
    hierarchy with its [print] methods, the [SymbolTable], and the
    recursive-descent [Parser].  Theorems come after the definitions.

    Modelling conventions.
    - [std::string] is [string]; [s[i]] is [char_at s i].
    - [size_t pos] is a [nat]; the [int] fields [line] and [column] are in
      [Z] (their overflow would need a buffer of 2^31 characters and is
      undefined behaviour in C++, so it is not modelled).  The [int] held by a
      [NumberNode] is a [Z] in the range of a 32-bit [int], which is what
      [std::stoi] guarantees or else throws.
    - the two [while] loops of the lexer run on fuel [size - pos], which
      [advance_while_exit] shows to be enough.
    - [std::cerr] and C++ exceptions are threaded through a small state and
      exception monad [M]. *)

From Stdlib Require Import ZArith String Ascii List Lia DecimalString DecimalPos.
From stdpp Require Import gmap strings.

Local Open Scope string_scope.
Local Open Scope Z_scope.

(** ** Characters and strings *)

(** ['\n'], which Rocq string literals cannot escape. *)
Definition newline : ascii := ascii_of_nat 10.
Definition endl : string := String newline EmptyString.

(** [in_range lo hi c]: the code of [c] lies in [lo..hi]. *)
Definition in_range (lo hi : nat) (c : ascii) : bool :=
  (lo <=? nat_of_ascii c)%nat && (nat_of_ascii c <=? hi)%nat.

(** The <cctype> predicates in the "C" locale.  Bytes above 127 belong to no
    class. *)
Definition isspace (c : ascii) : bool := in_range 9 13 c || in_range 32 32 c.
Definition isdigit (c : ascii) : bool := in_range 48 57 c.
Definition isalpha (c : ascii) : bool := in_range 65 90 c || in_range 97 122 c.
Definition isalnum (c : ascii) : bool := isalpha c || isdigit c.
Definition ispunct (c : ascii) : bool :=
  in_range 33 47 c || in_range 58 64 c || in_range 91 96 c || in_range 123 126 c.

(** [s[i]]; [std::string::operator[]] yields the null character at
    [i = size()]. *)
Definition char_at (s : string) (i : nat) : ascii :=
  match String.get i s with
  | Some c => c
  | None => zero
  end.

(** [std::string(n, c)]. *)
Fixpoint repeat_char (n : nat) (c : ascii) : string :=
  match n with
  | O => EmptyString
  | S n' => String c (repeat_char n' c)
  end.

(** ** Token and Lexer *)

Inductive TokenType : Set :=
  Identifier | Number | Keyword | Symbol | EndOfFile | Unknown.

#[global] Instance TokenType_eq_dec : EqDecision TokenType.
Proof. solve_decision. Defined.

Record Token : Set := mkToken {
  type : TokenType;
  value : string;
  line : Z;
  column : Z
}.

Module Lexer.

Record t : Set := mk {
  src : string;
  pos : nat;
  line : Z;
  column : Z
}.

(** [Lexer(const std::string& source)]. *)
Definition new (source : string) : t :=
  {| src := source; pos := 0; line := 1; column := 1 |}.

(** [void advance()]. *)
Definition advance (L : t) : t :=
  if Ascii.eqb (char_at (src L) (pos L)) newline
  then {| src := src L; pos := S (pos L); line := line L + 1; column := 1 |}
  else {| src := src L; pos := S (pos L); line := line L; column := column L + 1 |}.

(** [pos++] on its own, as [symbol()] and the Unknown branch of
    [nextToken()] do: neither [line] nor [column] moves. *)
Definition bump (L : t) : t :=
  {| src := src L; pos := S (pos L); line := line L; column := column L |}.

(** [while (pos < src.size() && p(src[pos])) advance();] *)
Fixpoint advance_while (p : ascii -> bool) (fuel : nat) (L : t) : t :=
  match fuel with
  | O => L
  | S fuel' =>
      if (pos L <? String.length (src L))%nat && p (char_at (src L) (pos L))
      then advance_while p fuel' (advance L)
      else L
  end.

(** The loop with the fuel that always suffices. *)
Definition scan (p : ascii -> bool) (L : t) : t :=
  advance_while p (String.length (src L) - pos L) L.

(** [Token identifier()]. *)
Definition identifier (L : t) : Token * t :=
  let start := pos L in
  let L' := scan isalnum L in
  let val := String.substring start (pos L' - start) (src L') in
  (mkToken (if String.eqb val "int" || String.eqb val "return"
            then Keyword else Identifier)
           val (line L') (column L'), L').

(** [Token number()]. *)
Definition number (L : t) : Token * t :=
  let start := pos L in
  let L' := scan isdigit L in
  (mkToken Number (String.substring start (pos L' - start) (src L'))
           (line L') (column L'), L').

(** [Token symbol()]. *)
Definition symbol (L : t) : Token * t :=
  (mkToken Symbol (String (char_at (src L) (pos L)) EmptyString)
           (line L) (column L), bump L).

(** [Token nextToken()]. *)
Definition nextToken (L : t) : Token * t :=
  let L := scan isspace L in
  if (String.length (src L) <=? pos L)%nat
  then (mkToken EndOfFile EmptyString (line L) (column L), L)
  else if isalpha (char_at (src L) (pos L)) then identifier L
  else if isdigit (char_at (src L) (pos L)) then number L
  else if ispunct (char_at (src L) (pos L)) then symbol L
  else (mkToken Unknown (String (char_at (src L) (pos L)) EmptyString)
                (line L) (column L), bump L).

(** The first [n] tokens of repeated [nextToken()] calls. *)
Fixpoint tokens (n : nat) (L : t) : list Token :=
  match n with
  | O => nil
  | S n' => let (tok, L') := nextToken L in tok :: tokens n' L'
  end.

End Lexer.

(** ** Exceptions, [std::stoi] and integer output *)

Inductive exception : Set := invalid_argument | out_of_range.

(** What a call yields: it returns a value or leaves by an exception. *)
Inductive outcome (A : Type) : Type :=
  | Returned (a : A)
  | Threw (e : exception).
Arguments Returned {A} a.
Arguments Threw {A} e.

(** A computation over a state [S] that may throw; the state reached when
    the exception is raised is kept. *)
Definition M (S A : Type) : Type := S -> outcome A * S.

#[global] Instance M_ret {S} : MRet (M S) :=
  fun A a s => (Returned a, s).

#[global] Instance M_bind {S} : MBind (M S) :=
  fun A B f m s =>
    match m s with
    | (Returned a, s') => f a s'
    | (Threw e, s') => (Threw e, s')
    end.

Definition lift_outcome {S A} (o : outcome A) : M S A := fun s => (o, s).

Definition INT_MAX : Z := 2147483647.
Definition INT_MIN : Z := -2147483648.

Fixpoint skip_space (s : string) : string :=
  match s with
  | String c s' => if isspace c then skip_space s' else s
  | EmptyString => s
  end.

(** The value of the leading run of decimal digits of [s], continuing from
    [acc]. *)
Fixpoint decimal (acc : Z) (s : string) : Z :=
  match s with
  | String c s' =>
      if isdigit c
      then decimal (10 * acc + (Z.of_nat (nat_of_ascii c) - 48)) s'
      else acc
  | EmptyString => acc
  end.

(** [std::stoi(str)] in base 10, which works as [strtol]: leading white space
    is skipped, a sign is optional, the longest run of digits is converted and
    whatever follows is ignored.  No digit at all throws
    [std::invalid_argument]; a value outside [int] throws
    [std::out_of_range]. *)
Definition stoi (str : string) : outcome Z :=
  let s := skip_space str in
  let '(neg, s) :=
    match s with
    | String c s' =>
        if Ascii.eqb c "-" then (true, s')
        else if Ascii.eqb c "+" then (false, s')
        else (false, s)
    | EmptyString => (false, s)
    end in
  match s with
  | String c _ =>
      if isdigit c then
        let v := if neg : bool then - decimal 0 s else decimal 0 s in
        if (INT_MIN <=? v) && (v <=? INT_MAX) then Returned v
        else Threw out_of_range
      else Threw invalid_argument
  | EmptyString => Threw invalid_argument
  end.

(** [std::ostream << int]: decimal digits, with a minus sign when negative. *)
Definition string_of_int (v : Z) : string :=
  NilZero.string_of_int (Z.to_int v).

(** ** AST nodes *)

(** The three classes derived from [ASTNode].  An [ASTPtr] is a
    [std::shared_ptr<ASTNode>]: [None] is the null pointer. *)
#[warnings="-register-all"]
Inductive ASTNode : Set :=
  | NumberNode (value : Z)
  | IdentifierNode (name : string)
  | DeclarationNode (type name : string) (value : option ASTNode).

Definition ASTPtr : Set := option ASTNode.

(** [void print(int indent) const]: the text written to [std::cout].  The
    indent is a count of spaces, so it is a [nat] here. *)
Fixpoint print (indent : nat) (node : ASTNode) : string :=
  match node with
  | NumberNode value =>
      repeat_char indent " " ++ "Number: " ++ string_of_int value ++ endl
  | IdentifierNode name =>
      repeat_char indent " " ++ "Identifier: " ++ name ++ endl
  | DeclarationNode type name value =>
      (repeat_char indent " " ++ "Declaration: " ++ type ++ " " ++ name ++ endl)
      ++ match value with
         | Some child => print (indent + 2) child
         | None => EmptyString
         end
  end.

(** ** Symbol table *)

Module SymbolTable.

Record t : Type := mk { symbols : gmap string string }.

(** A freshly constructed table. *)
Definition new : t := {| symbols := ∅ |}.

(** [void declare(name, type)]: [symbols[name] = type]. *)
Definition declare (name type : string) (st : t) : t :=
  {| symbols := <[name := type]> (symbols st) |}.

(** [bool exists(name) const]; the table is returned as the call leaves
    it. *)
Definition exists_ (name : string) (st : t) : bool * t :=
  (match symbols st !! name with
   | Some _ => true
   | None => false
   end, st).

(** [std::string typeOf(name) const]. *)
Definition typeOf (name : string) (st : t) : string * t :=
  (match symbols st !! name with
   | Some ty => ty
   | None => EmptyString
   end, st).

(** A sequence of [declare] calls, first call first. *)
Definition declare_all (calls : list (string * string)) (st : t) : t :=
  fold_left (fun st call => declare (fst call) (snd call) st) calls st.

End SymbolTable.

(** ** Parser *)

Module Parser.

(** The members of [Parser].  [lexer] is a reference in the source; the
    parser is its only user while it runs, so the lexer's state is kept
    here. *)
Record t : Set := mk {
  lexer : Lexer.t;
  current : Token
}.

(** A method runs over the parser and the text written to [std::cerr]. *)
Definition method (A : Type) : Type := M (t * string) A.

Definition get_current : method Token :=
  fun s => (Returned (current (fst s)), s).

Definition cerr (msg : string) : method unit :=
  fun s => (Returned tt, (fst s, snd s ++ msg)).

(** [void advance()]: [current = lexer.nextToken()]. *)
Definition advance : method unit :=
  fun s =>
    let (tok, L) := Lexer.nextToken (lexer (fst s)) in
    (Returned tt, ({| lexer := L; current := tok |}, snd s)).

(** [Parser(Lexer& lex)]: the constructor pulls the first token. *)
Definition new (lex : Lexer.t) : t :=
  let (tok, L) := Lexer.nextToken lex in {| lexer := L; current := tok |}.

(** [ASTPtr parseDeclaration()]. *)
Definition parseDeclaration : method ASTPtr :=
  cur ← get_current;
  if bool_decide (type cur = Keyword) && String.eqb (value cur) "int" then
    let ty := value cur in
    advance;;
    cur ← get_current;
    if bool_decide (type cur ≠ Identifier) then
      cerr ("Expected identifier after 'int'" ++ endl);;
      mret None
    else
    let name := value cur in
    advance;;
    cur ← get_current;
    if bool_decide (type cur ≠ Symbol) || negb (String.eqb (value cur) "=") then
      cerr ("Expected '=' after identifier" ++ endl);;
      mret None
    else
    advance;;
    cur ← get_current;
    if bool_decide (type cur ≠ Number) then
      cerr ("Expected number after '='" ++ endl);;
      mret None
    else
    val ← lift_outcome (stoi (value cur));
    advance;;
    cur ← get_current;
    if bool_decide (type cur ≠ Symbol) || negb (String.eqb (value cur) ";") then
      cerr ("Expected ';' at the end of declaration" ++ endl);;
      mret None
    else
    advance;;
    mret (Some (DeclarationNode ty name (Some (NumberNode val))))
  else
    cerr ("Unexpected token: " ++ value cur ++ endl);;
    mret None.

(** The parser as [main] sets it up over a source text, with nothing yet
    written to [std::cerr]. *)
Definition start (source : string) : t * string :=
  (new (Lexer.new source), EmptyString).

(** The current token after [k] further [advance()] calls. *)
Fixpoint lookahead (k : nat) (P : t) : Token :=
  match k with
  | O => current P
  | S k' => lookahead k' (new (lexer P))
  end.

End Parser.

(** ** The parser's checkpoints and source positions *)

(** The five tests of [parseDeclaration], in the order the code makes
    them. *)
Inductive checkpoint : Set :=
  Start | AfterType | AfterName | AfterEquals | AfterValue.

(** How many tokens have been consumed when the checkpoint is tested. *)
Definition ordinal (c : checkpoint) : nat :=
  match c with
  | Start => 0 | AfterType => 1 | AfterName => 2
  | AfterEquals => 3 | AfterValue => 4
  end.

(** The condition under which the code goes on at a checkpoint. *)
Definition expects (c : checkpoint) (tok : Token) : bool :=
  match c with
  | Start => bool_decide (type tok = Keyword) && String.eqb (value tok) "int"
  | AfterType => bool_decide (type tok = Identifier)
  | AfterName => bool_decide (type tok = Symbol) && String.eqb (value tok) "="
  | AfterEquals => bool_decide (type tok = Number)
  | AfterValue => bool_decide (type tok = Symbol) && String.eqb (value tok) ";"
  end.

(** What the code writes to [std::cerr] when the checkpoint rejects
    [tok]. *)
Definition diagnostic (c : checkpoint) (tok : Token) : string :=
  match c with
  | Start => "Unexpected token: " ++ value tok ++ endl
  | AfterType => "Expected identifier after 'int'" ++ endl
  | AfterName => "Expected '=' after identifier" ++ endl
  | AfterEquals => "Expected number after '='" ++ endl
  | AfterValue => "Expected ';' at the end of declaration" ++ endl
  end.

(** The parser after [k] calls of its [advance()]. *)
Fixpoint advances (k : nat) (P : Parser.t) : Parser.t :=
  match k with
  | O => P
  | S k' => advances k' (Parser.new (Parser.lexer P))
  end.

(** The checkpoint accepts the token the parser holds when it tests it. *)
Definition passes (c : checkpoint) (P : Parser.t) : bool :=
  expects c (Parser.lookahead (ordinal c) P).

Definition checkpoints : list checkpoint :=
  [Start; AfterType; AfterName; AfterEquals; AfterValue].

(** All the checkpoints tested before [c] accept. *)
Definition passes_before (c : checkpoint) (P : Parser.t) : bool :=
  forallb (fun c' => passes c' P) (take (ordinal c) checkpoints).

(** [contains needle hay]: [needle] occurs in [hay]. *)
Definition contains (needle hay : string) : bool :=
  match String.index 0 needle hay with
  | Some _ => true
  | None => false
  end.

(** Every character of [s] satisfies [p]. *)
Fixpoint string_forall (p : ascii -> bool) (s : string) : bool :=
  match s with
  | EmptyString => true
  | String c s' => p c && string_forall p s'
  end.

(** One character's effect on a (line, column) pair, as [Lexer::advance]
    has it. *)
Definition cursor_step (c : ascii) (lc : Z * Z) : Z * Z :=
  if Ascii.eqb c newline then (fst lc + 1, 1) else (fst lc, snd lc + 1).

(** The (line, column) of the cursor once the first [n] characters of [s]
    are consumed, counting from (1, 1). *)
Fixpoint cursor_at (s : string) (n : nat) : Z * Z :=
  match n with
  | O => (1, 1)
  | S n' => cursor_step (char_at s n') (cursor_at s n')
  end.

(** The lexer's [line] and [column] agree with its [pos]. *)
Definition in_sync (L : Lexer.t) : Prop :=
  (Lexer.line L, Lexer.column L) = cursor_at (Lexer.src L) (Lexer.pos L).

(** ** Runs of the lexer, and layout of the printed tree *)

(** The lexer after [n] calls of [nextToken()]. *)
Fixpoint lexer_after (n : nat) (L : Lexer.t) : Lexer.t :=
  match n with
  | O => L
  | S n' => lexer_after n' (snd (Lexer.nextToken L))
  end.

(** [L1] reads the buffer of [L2] behind the prefix [pre], and stands at the
    same character. *)
Definition shifted (pre : string) (L1 L2 : Lexer.t) : Prop :=
  Lexer.src L1 = pre ++ Lexer.src L2
  /\ Lexer.pos L1 = (String.length pre + Lexer.pos L2)%nat.

(** [s] with [k] spaces put before each of its lines; [at_start] tells
    whether the next character begins a line. *)
Fixpoint indent_from (k : nat) (at_start : bool) (s : string) : string :=
  match s with
  | EmptyString => EmptyString
  | String c s' =>
      (if at_start then repeat_char k " " else EmptyString)
      ++ String c (indent_from k (Ascii.eqb c newline) s')
  end.

Definition indent_lines (k : nat) (s : string) : string := indent_from k true s.

Definition not_newline (c : ascii) : bool := negb (Ascii.eqb c newline).

(** No name held in the tree contains a newline. *)
Fixpoint single_line_names (node : ASTNode) : bool :=
  match node with
  | NumberNode _ => true
  | IdentifierNode name => string_forall not_newline name
  | DeclarationNode type name value =>
      string_forall not_newline type && string_forall not_newline name
      && match value with
         | Some child => single_line_names child
         | None => true
         end
  end.

(** * Theorems *)

(** ** Character classes *)

Lemma in_range_spec lo hi c :
  in_range lo hi c = true <-> (lo <= nat_of_ascii c <= hi)%nat.
Proof.
  unfold in_range. rewrite andb_true_iff, !Nat.leb_le. tauto.
Qed.

Lemma in_range_false lo hi c :
  in_range lo hi c = false <-> (nat_of_ascii c < lo \/ hi < nat_of_ascii c)%nat.
Proof.
  unfold in_range. rewrite andb_false_iff, !Nat.leb_gt. tauto.
Qed.

Lemma isdigit_not_space c : isdigit c = true -> isspace c = false.
Proof.
  unfold isdigit, isspace. rewrite in_range_spec, orb_false_iff, !in_range_false. lia.
Qed.

Lemma isalpha_not_space c : isalpha c = true -> isspace c = false.
Proof.
  unfold isalpha, isspace.
  rewrite orb_true_iff, !in_range_spec, orb_false_iff, !in_range_false. lia.
Qed.

Lemma isdigit_not_sign c :
  isdigit c = true -> Ascii.eqb c "-" = false /\ Ascii.eqb c "+" = false.
Proof.
  unfold isdigit. rewrite in_range_spec. intros H.
  split; apply Ascii.eqb_neq; intros ->; vm_compute in H; lia.
Qed.

Lemma isdigit_value c :
  isdigit c = true -> 0 <= Z.of_nat (nat_of_ascii c) - 48 <= 9.
Proof. unfold isdigit. rewrite in_range_spec. lia. Qed.

(** ** The scanning loops *)

Lemma advance_src L : Lexer.src (Lexer.advance L) = Lexer.src L.
Proof. unfold Lexer.advance. by destruct (Ascii.eqb _ _). Qed.

Lemma advance_pos L : Lexer.pos (Lexer.advance L) = S (Lexer.pos L).
Proof. unfold Lexer.advance. by destruct (Ascii.eqb _ _). Qed.

Lemma advance_in_sync L : in_sync L -> in_sync (Lexer.advance L).
Proof.
  unfold in_sync, Lexer.advance. intros H.
  destruct (Ascii.eqb _ _) eqn:E; simpl; unfold cursor_step;
    rewrite E, <- H; reflexivity.
Qed.

(** What the loop establishes, whatever the fuel: the buffer is untouched,
    the cursor only moves forward and stays within the buffer, and every
    character passed over satisfies [p]. *)
Lemma advance_while_inv p fuel L :
  let L' := Lexer.advance_while p fuel L in
  Lexer.src L' = Lexer.src L
  /\ (Lexer.pos L <= Lexer.pos L')%nat
  /\ (Lexer.pos L' <= Nat.max (Lexer.pos L) (String.length (Lexer.src L)))%nat
  /\ (forall i, (Lexer.pos L <= i < Lexer.pos L')%nat ->
        p (char_at (Lexer.src L) i) = true)
  /\ (in_sync L -> in_sync L').
Proof.
  revert L. induction fuel as [|fuel IH]; intros L; simpl.
  - repeat split; auto; lia.
  - destruct ((Lexer.pos L <? String.length (Lexer.src L))%nat
              && p (char_at (Lexer.src L) (Lexer.pos L))) eqn:E.
    + apply andb_true_iff in E as [Hlt Hp]. apply Nat.ltb_lt in Hlt.
      specialize (IH (Lexer.advance L)). simpl in IH.
      rewrite advance_src, advance_pos in IH.
      destruct IH as (Hs & Hle & Hmax & Hall & Hsync).
      repeat split; try lia; auto.
      * intros i Hi. destruct (decide (i = Lexer.pos L)) as [->|Hne]; auto.
        apply Hall. lia.
      * intros H. apply Hsync, advance_in_sync, H.
    + repeat split; auto; lia.
Qed.

(** With fuel [size - pos] the loop ends because its condition is false,
    as the [while] of the source does. *)
Lemma advance_while_exit p fuel L :
  (String.length (Lexer.src L) - Lexer.pos L <= fuel)%nat ->
  let L' := Lexer.advance_while p fuel L in
  (Lexer.pos L' <? String.length (Lexer.src L'))%nat
    && p (char_at (Lexer.src L') (Lexer.pos L')) = false.
Proof.
  revert L. induction fuel as [|fuel IH]; intros L Hfuel; simpl.
  - apply andb_false_iff. left. apply Nat.ltb_ge. lia.
  - destruct ((Lexer.pos L <? String.length (Lexer.src L))%nat
              && p (char_at (Lexer.src L) (Lexer.pos L))) eqn:E; [|exact E].
    apply IH. rewrite advance_src, advance_pos. lia.
Qed.

(** The loop as the source runs it. *)
Lemma scan_spec p L :
  let L' := Lexer.scan p L in
  Lexer.src L' = Lexer.src L
  /\ (Lexer.pos L <= Lexer.pos L')%nat
  /\ (Lexer.pos L' <= Nat.max (Lexer.pos L) (String.length (Lexer.src L)))%nat
  /\ (forall i, (Lexer.pos L <= i < Lexer.pos L')%nat ->
        p (char_at (Lexer.src L) i) = true)
  /\ (in_sync L -> in_sync L')
  /\ (Lexer.pos L' <? String.length (Lexer.src L))%nat
       && p (char_at (Lexer.src L) (Lexer.pos L')) = false.
Proof.
  unfold Lexer.scan.
  pose proof (advance_while_inv p (String.length (Lexer.src L) - Lexer.pos L) L) as Hinv.
  pose proof (advance_while_exit p (String.length (Lexer.src L) - Lexer.pos L) L
                (Nat.le_refl _)) as Hexit.
  simpl in *. destruct Hinv as (Hs & Hle & Hmax & Hall & Hsync).
  rewrite Hs in Hexit. auto 10.
Qed.

(** A loop whose condition fails at once leaves the lexer as it is. *)
Lemma scan_stuck p L :
  (Lexer.pos L <? String.length (Lexer.src L))%nat
    && p (char_at (Lexer.src L) (Lexer.pos L)) = false ->
  Lexer.scan p L = L.
Proof.
  unfold Lexer.scan. intros H.
  destruct (String.length (Lexer.src L) - Lexer.pos L)%nat; simpl; [done|].
  by rewrite H.
Qed.

(** ** Substrings *)

Lemma get_lt s : forall n, (n < String.length s)%nat -> exists c, String.get n s = Some c.
Proof.
  induction s as [|a s IH]; intros n Hn; simpl in *; [lia|].
  destruct n as [|n]; [eauto|]. apply IH. lia.
Qed.

Lemma string_forall_get p s :
  (forall i c, String.get i s = Some c -> p c = true) -> string_forall p s = true.
Proof.
  induction s as [|a s IH]; intros H; simpl; [done|].
  apply andb_true_iff. split.
  - apply (H 0%nat). reflexivity.
  - apply IH. intros i c Hi. apply (H (S i)). exact Hi.
Qed.

Lemma substring_forall p s n m :
  (forall i, (n <= i < n + m)%nat -> p (char_at s i) = true) ->
  string_forall p (String.substring n m s) = true.
Proof.
  intros H. apply string_forall_get. intros i c Hi.
  destruct (le_lt_dec m i) as [Hge|Hlt].
  - rewrite substring_correct2 in Hi by exact Hge. discriminate.
  - rewrite substring_correct1 in Hi by exact Hlt.
    specialize (H (i + n)%nat). unfold char_at in H. rewrite Hi in H.
    apply H. lia.
Qed.

Lemma substring_nonempty s n m :
  (n < String.length s)%nat -> (0 < m)%nat -> String.substring n m s <> EmptyString.
Proof.
  intros Hn Hm Heq. destruct (get_lt s n Hn) as [c Hc].
  pose proof (substring_correct1 s n m 0 Hm) as H.
  rewrite Heq in H. simpl in H. congruence.
Qed.

(** ** [nextToken] case by case *)

Lemma nextToken_eof L :
  (String.length (Lexer.src L) <= Lexer.pos (Lexer.scan isspace L))%nat ->
  Lexer.nextToken L =
    (mkToken EndOfFile EmptyString (Lexer.line (Lexer.scan isspace L))
             (Lexer.column (Lexer.scan isspace L)), Lexer.scan isspace L).
Proof.
  intros H. unfold Lexer.nextToken.
  destruct (scan_spec isspace L) as (Hs & _). simpl in Hs. rewrite Hs.
  apply Nat.leb_le in H. by rewrite H.
Qed.

Lemma nextToken_alpha L :
  let L0 := Lexer.scan isspace L in
  (Lexer.pos L0 < String.length (Lexer.src L0))%nat ->
  isalpha (char_at (Lexer.src L0) (Lexer.pos L0)) = true ->
  Lexer.nextToken L = Lexer.identifier L0.
Proof.
  simpl. intros Hlt Ha. unfold Lexer.nextToken.
  apply Nat.leb_gt in Hlt. by rewrite Hlt, Ha.
Qed.

(** The token kinds tell which branch of [nextToken] ran. *)
Lemma nextToken_cases L :
  let L0 := Lexer.scan isspace L in
  let c := char_at (Lexer.src L0) (Lexer.pos L0) in
  ((String.length (Lexer.src L0) <= Lexer.pos L0)%nat
    /\ Lexer.nextToken L =
         (mkToken EndOfFile EmptyString (Lexer.line L0) (Lexer.column L0), L0))
  \/ ((Lexer.pos L0 < String.length (Lexer.src L0))%nat
      /\ ((isalpha c = true /\ Lexer.nextToken L = Lexer.identifier L0)
          \/ (isalpha c = false /\ isdigit c = true
              /\ Lexer.nextToken L = Lexer.number L0)
          \/ (isalpha c = false /\ isdigit c = false /\ ispunct c = true
              /\ Lexer.nextToken L = Lexer.symbol L0)
          \/ (isalpha c = false /\ isdigit c = false /\ ispunct c = false
              /\ Lexer.nextToken L =
                   (mkToken Unknown (String c EmptyString)
                            (Lexer.line L0) (Lexer.column L0), Lexer.bump L0)))).
Proof.
  simpl. unfold Lexer.nextToken.
  destruct (String.length _ <=? _)%nat eqn:E.
  - left. apply Nat.leb_le in E. auto.
  - right. apply Nat.leb_gt in E. split; [exact E|].
    destruct (isalpha _) eqn:Ea; [auto|].
    destruct (isdigit _) eqn:Ed; [auto|].
    destruct (ispunct _) eqn:Ep; auto 10.
Qed.

(** The lexeme of [identifier()] and [number()]: the characters from the
    start to where the loop stops, at least one of them, all in the class
    scanned, and the run cannot be extended. *)
Lemma scanned_lexeme p L :
  (Lexer.pos L < String.length (Lexer.src L))%nat ->
  p (char_at (Lexer.src L) (Lexer.pos L)) = true ->
  let L' := Lexer.scan p L in
  let val := String.substring (Lexer.pos L) (Lexer.pos L' - Lexer.pos L) (Lexer.src L') in
  (Lexer.pos L < Lexer.pos L' <= String.length (Lexer.src L))%nat
  /\ val <> EmptyString
  /\ string_forall p val = true
  /\ (forall i, (Lexer.pos L <= i < Lexer.pos L')%nat ->
        p (char_at (Lexer.src L) i) = true)
  /\ (Lexer.pos L' <? String.length (Lexer.src L))%nat
       && p (char_at (Lexer.src L) (Lexer.pos L')) = false.
Proof.
  intros Hlt Hp. destruct (scan_spec p L) as (Hs & Hle & Hmax & Hall & _ & Hexit).
  simpl in *. rewrite Hs.
  assert (Lexer.pos L < Lexer.pos (Lexer.scan p L))%nat as Hmove.
  { destruct (decide (Lexer.pos (Lexer.scan p L) = Lexer.pos L)) as [Heq|Hne]; [|lia].
    rewrite Heq, Hp, andb_true_r in Hexit. apply Nat.ltb_ge in Hexit. lia. }
  repeat split; try lia; auto.
  - apply substring_nonempty; lia.
  - apply substring_forall. intros i Hi. apply Hall. lia.
Qed.

(** ** The lexer's tokens *)

(** C2: the first six [nextToken()] calls on the buffer of [main],
    "int x = 42;", give Keyword "int", Identifier "x", Symbol "=",
    Number "42", Symbol ";" and EndOfFile with the empty text, in that
    order. *)
Theorem C2_token_sequence :
  map (fun tok => (type tok, value tok))
      (Lexer.tokens 6 (Lexer.new "int x = 42;"))
  = [ (Keyword, "int"); (Identifier, "x"); (Symbol, "=");
      (Number, "42"); (Symbol, ";"); (EndOfFile, EmptyString) ].
Proof. vm_compute. reflexivity. Qed.

(** Once the end of the buffer is reached every further call gives
    EndOfFile again. *)
Lemma nextToken_eof_again L :
  (String.length (Lexer.src L) <= Lexer.pos L)%nat ->
  Lexer.nextToken L = (mkToken EndOfFile EmptyString (Lexer.line L) (Lexer.column L), L).
Proof.
  intros H. assert (Lexer.scan isspace L = L) as Hs.
  { apply scan_stuck, andb_false_iff. left. apply Nat.ltb_ge, H. }
  rewrite nextToken_eof; rewrite Hs; auto.
Qed.

(** C7: when the next character after the white space is alphabetic, the
    token's text is the run of alphanumeric characters from there that cannot
    be extended, and the token is a Keyword exactly when that text is "int"
    or "return", and an Identifier in every other case. *)
Theorem C7_keyword_iff_int_or_return (L : Lexer.t) :
  let L0 := Lexer.scan isspace L in
  let tok := fst (Lexer.nextToken L) in
  let L' := snd (Lexer.nextToken L) in
  (Lexer.pos L0 < String.length (Lexer.src L0))%nat ->
  isalpha (char_at (Lexer.src L0) (Lexer.pos L0)) = true ->
  value tok = String.substring (Lexer.pos L0) (Lexer.pos L' - Lexer.pos L0) (Lexer.src L)
  /\ (Lexer.pos L0 < Lexer.pos L' <= String.length (Lexer.src L))%nat
  /\ (forall i, (Lexer.pos L0 <= i < Lexer.pos L')%nat ->
        isalnum (char_at (Lexer.src L) i) = true)
  /\ (Lexer.pos L' <? String.length (Lexer.src L))%nat
       && isalnum (char_at (Lexer.src L) (Lexer.pos L')) = false
  /\ (type tok = Keyword <-> value tok = "int" \/ value tok = "return")
  /\ (type tok = Identifier <-> ~ (value tok = "int" \/ value tok = "return")).
Proof.
  intros L0 tok L' Hlt Ha. subst tok L'.
  rewrite (nextToken_alpha L Hlt Ha). fold L0.
  assert (isalnum (char_at (Lexer.src L0) (Lexer.pos L0)) = true) as Hn.
  { unfold isalnum. by rewrite Ha. }
  destruct (scanned_lexeme isalnum L0 Hlt Hn) as (Hpos & _ & _ & Hall & Hexit).
  destruct (scan_spec isspace L) as (Hs0 & _). fold L0 in Hs0.
  destruct (scan_spec isalnum L0) as (Hs1 & _).
  simpl in *. rewrite Hs1. rewrite Hs0 in *.
  set (val := String.substring (Lexer.pos L0)
                (Lexer.pos (Lexer.scan isalnum L0) - Lexer.pos L0) (Lexer.src L)).
  assert (String.eqb val "int" || String.eqb val "return" = true
          <-> val = "int" \/ val = "return") as Hkw.
  { rewrite orb_true_iff, !String.eqb_eq. tauto. }
  repeat split; try lia; auto.
  - destruct (String.eqb val "int" || String.eqb val "return"); [tauto|discriminate].
  - intros H. apply Hkw in H. by rewrite H.
  - intros Hty H. apply Hkw in H. rewrite H in Hty. discriminate.
  - intros Hno. destruct (String.eqb val "int" || String.eqb val "return");
      [tauto|reflexivity].
Qed.

Lemma C7_keyword_iff_int_or_return_witness :
  fst (Lexer.nextToken (Lexer.new "  returns 1")) =
    mkToken Identifier "returns" 1 10
  /\ (type (fst (Lexer.nextToken (Lexer.new "  returns 1"))) = Identifier <->
      ~ (value (fst (Lexer.nextToken (Lexer.new "  returns 1"))) = "int"
         \/ value (fst (Lexer.nextToken (Lexer.new "  returns 1"))) = "return")).
Proof.
  split; [vm_compute; reflexivity|].
  apply (C7_keyword_iff_int_or_return (Lexer.new "  returns 1")).
  - vm_compute. lia.
  - vm_compute. reflexivity.
Defined.

(** The examples of the classification: the two keywords, and words that
    only begin with one. *)
Example classify_examples :
  map (fun s => type (fst (Lexer.nextToken (Lexer.new s))))
      ["int"; "return"; "integer"; "returns"; "in"; "Int"; "int2"]
  = [Keyword; Keyword; Identifier; Identifier; Identifier; Identifier; Identifier].
Proof. vm_compute. reflexivity. Qed.

(** ** Token positions *)

Lemma cursor_step_moves c lc : cursor_step c lc <> lc.
Proof.
  unfold cursor_step. destruct lc as [l k].
  destruct (Ascii.eqb c newline); simpl; intros H; inversion H; lia.
Qed.

(** Tokens made by a scanning loop (and EndOfFile) carry the position of the
    cursor after the lexeme, as long as [line] and [column] agreed with
    [pos] before the call. *)
Lemma nextToken_position_scanned L :
  in_sync L ->
  let tok := fst (Lexer.nextToken L) in
  let L' := snd (Lexer.nextToken L) in
  type tok <> Symbol -> type tok <> Unknown ->
  (line tok, column tok) = cursor_at (Lexer.src L) (Lexer.pos L') /\ in_sync L'.
Proof.
  intros Hsync. simpl.
  destruct (scan_spec isspace L) as (Hs0 & _ & _ & _ & Hsync0 & _).
  specialize (Hsync0 Hsync). simpl in *.
  destruct (nextToken_cases L) as [[_ ->]|[_ [(_ & ->)|[(_ & _ & ->)|[(_ & _ & _ & ->)|(_ & _ & _ & ->)]]]]];
    simpl; intros H1 H2; try done.
  - rewrite <- Hs0. auto.
  - destruct (scan_spec isalnum (Lexer.scan isspace L)) as (Hs1 & _ & _ & _ & Hsync1 & _).
    simpl in *. specialize (Hsync1 Hsync0). split; [|exact Hsync1].
    rewrite <- Hs0, <- Hs1. exact Hsync1.
  - destruct (scan_spec isdigit (Lexer.scan isspace L)) as (Hs1 & _ & _ & _ & Hsync1 & _).
    simpl in *. specialize (Hsync1 Hsync0). split; [|exact Hsync1].
    rewrite <- Hs0, <- Hs1. exact Hsync1.
Qed.

(** Symbol and Unknown tokens carry the position at which their one
    character starts, and the lexer's [line] and [column] stay there: the
    character is consumed by [pos++], not by [advance()]. *)
Lemma nextToken_position_single L :
  in_sync L ->
  let L0 := Lexer.scan isspace L in
  let tok := fst (Lexer.nextToken L) in
  let L' := snd (Lexer.nextToken L) in
  type tok = Symbol \/ type tok = Unknown ->
  Lexer.pos L' = S (Lexer.pos L0)
  /\ (line tok, column tok) = cursor_at (Lexer.src L) (Lexer.pos L0)
  /\ (line tok, column tok) <> cursor_at (Lexer.src L) (Lexer.pos L')
  /\ (Lexer.line L', Lexer.column L') = (line tok, column tok).
Proof.
  intros Hsync. simpl.
  destruct (scan_spec isspace L) as (Hs0 & _ & _ & _ & Hsync0 & _).
  specialize (Hsync0 Hsync). simpl in *. unfold in_sync in Hsync0. rewrite Hs0 in Hsync0.
  destruct (nextToken_cases L) as [[_ ->]|[_ [(_ & ->)|[(_ & _ & ->)|[(_ & _ & _ & ->)|(_ & _ & _ & ->)]]]]];
    simpl; intros [H|H]; try discriminate H.
  - revert H. by destruct (_ || _).
  - revert H. by destruct (_ || _).
  - repeat split; auto. rewrite Hsync0. intros Heq. symmetry in Heq.
    exact (cursor_step_moves _ _ Heq).
  - repeat split; auto. rewrite Hsync0. intros Heq. symmetry in Heq.
    exact (cursor_step_moves _ _ Heq).
Qed.

(** C3, at the buffer ";": the Symbol token carries line 1, column 1, which
    is where the lexeme starts; the cursor after the lexeme is at column 2,
    yet the lexer's own [column] is left at 1 with [pos] at 1. *)
Theorem C3_symbol_token_keeps_start_position :
  Lexer.nextToken (Lexer.new ";") = (mkToken Symbol ";" 1 1, Lexer.mk ";" 1 1 1)
  /\ cursor_at ";" 0 = (1, 1)
  /\ cursor_at ";" 1 = (1, 2).
Proof. vm_compute. auto. Qed.

(** The same on the buffer of [main]: Number "42" and the Symbol ";" that
    follows it are both reported at column 10. *)
Example positions_in_main :
  map (fun tok => (value tok, line tok, column tok))
      (Lexer.tokens 5 (Lexer.new "int x = 42;"))
  = [("int", 1, 4); ("x", 1, 6); ("=", 1, 7); ("42", 1, 10); (";", 1, 10)].
Proof. vm_compute. reflexivity. Qed.

(** ** The symbol table *)

Lemma declare_all_app calls1 calls2 st :
  SymbolTable.declare_all (calls1 ++ calls2) st
  = SymbolTable.declare_all calls2 (SymbolTable.declare_all calls1 st).
Proof. unfold SymbolTable.declare_all. apply fold_left_app. Qed.

(** Calls that declare other names leave the entry of [n] alone. *)
Lemma declare_all_other (calls : list (string * string)) n st :
  n ∉ calls.*1 ->
  SymbolTable.symbols (SymbolTable.declare_all calls st) !! n
  = SymbolTable.symbols st !! n.
Proof.
  revert st. induction calls as [|[m t] calls IH]; intros st Hn; simpl; [done|].
  rewrite fmap_cons in Hn. apply not_elem_of_cons in Hn as [Hne Hn].
  rewrite IH by exact Hn. simpl. apply lookup_insert_ne. auto.
Qed.

(** An entry is present after the calls when one of them declared the name
    or the name was there before. *)
Lemma declare_all_is_Some (calls : list (string * string)) n st :
  is_Some (SymbolTable.symbols (SymbolTable.declare_all calls st) !! n)
  <-> n ∈ calls.*1 \/ is_Some (SymbolTable.symbols st !! n).
Proof.
  revert st. induction calls as [|[m t] calls IH]; intros st; simpl.
  - rewrite elem_of_nil. tauto.
  - rewrite IH, elem_of_cons. simpl.
    destruct (decide (m = n)) as [->|Hne].
    + rewrite lookup_insert_eq. split; [auto|]. intros _. right. eauto.
    + rewrite lookup_insert_ne by exact Hne. split; [tauto|].
      intros [[Heq|H]|H]; [congruence|tauto..].
Qed.

(** C9: after any sequence of [declare] calls on a new table, [exists(n)]
    is true exactly when some call declared [n]; [typeOf(n)] is the type
    given by the last call that declared [n], and the empty string when no
    call did. *)
Theorem C9_last_declare_wins (calls : list (string * string)) (n : string) :
  let st := SymbolTable.declare_all calls SymbolTable.new in
  (fst (SymbolTable.exists_ n st) = true <-> exists t, (n, t) ∈ calls)
  /\ (forall (before after : list (string * string)) t,
        calls = (before ++ (n, t) :: after)%list -> n ∉ after.*1 ->
        fst (SymbolTable.typeOf n st) = t)
  /\ ((forall t, (n, t) ∉ calls) -> fst (SymbolTable.typeOf n st) = EmptyString).
Proof.
  simpl. split; [|split].
  - pose proof (declare_all_is_Some calls n SymbolTable.new) as H.
    simpl in H. rewrite lookup_empty in H.
    assert (n ∈ calls.*1 <-> exists t, (n, t) ∈ calls) as Hin.
    { rewrite list_elem_of_fmap. split.
      - intros [[m t] [-> Hmt]]. eauto.
      - intros [t Ht]. exists (n, t). auto. }
    rewrite <- Hin.
    destruct (SymbolTable.symbols (SymbolTable.declare_all calls SymbolTable.new) !! n)
      as [ty|] eqn:E.
    + split; [|done]. intros _.
      destruct (proj1 H (ex_intro _ ty eq_refl)) as [Hn|[? ?]]; [exact Hn|discriminate].
    + split; [done|]. intros Hn.
      destruct (proj2 H (or_introl Hn)) as [? ?]. discriminate.
  - intros before after t -> Hlast.
    rewrite declare_all_app. simpl.
    fold (SymbolTable.declare_all after
            (SymbolTable.declare n t (SymbolTable.declare_all before SymbolTable.new))).
    rewrite declare_all_other by exact Hlast. simpl.
    by rewrite lookup_insert_eq.
  - intros Hnone. rewrite declare_all_other.
    + simpl. by rewrite lookup_empty.
    + rewrite list_elem_of_fmap. intros [[m t] [Heq Hmt]]. simpl in Heq. subst m.
      exact (Hnone t Hmt).
Qed.

Lemma C9_last_declare_wins_witness :
  fst (SymbolTable.typeOf "x"
         (SymbolTable.declare_all [("x", "int"); ("y", "int"); ("x", "long")]
            SymbolTable.new)) = "long"
  /\ fst (SymbolTable.typeOf "z"
         (SymbolTable.declare_all [("x", "int"); ("y", "int"); ("x", "long")]
            SymbolTable.new)) = EmptyString.
Proof.
  split.
  - apply (C9_last_declare_wins [("x", "int"); ("y", "int"); ("x", "long")] "x")
      with (before := [("x", "int"); ("y", "int")]) (after := []).
    + reflexivity.
    + simpl. apply not_elem_of_nil.
  - apply (C9_last_declare_wins [("x", "int"); ("y", "int"); ("x", "long")] "z").
    intros t Ht. repeat (apply elem_of_cons in Ht as [Ht|Ht]; [discriminate Ht|]).
    by apply elem_of_nil in Ht.
Defined.

(** C10: [declare(name, type)] changes the entry of [name] only, so for
    every other name [exists] and [typeOf] answer as before the call; and
    [exists] and [typeOf] hand the table back as they received it. *)
Theorem C10_declare_frame (name type m : string) (st : SymbolTable.t) :
  (m <> name ->
     SymbolTable.symbols (SymbolTable.declare name type st) !! m
       = SymbolTable.symbols st !! m
     /\ fst (SymbolTable.exists_ m (SymbolTable.declare name type st))
        = fst (SymbolTable.exists_ m st)
     /\ fst (SymbolTable.typeOf m (SymbolTable.declare name type st))
        = fst (SymbolTable.typeOf m st))
  /\ snd (SymbolTable.exists_ m st) = st
  /\ snd (SymbolTable.typeOf m st) = st.
Proof.
  split; [|done]. intros Hne. simpl.
  rewrite lookup_insert_ne by auto. done.
Qed.

Lemma C10_declare_frame_witness :
  fst (SymbolTable.typeOf "y"
         (SymbolTable.declare "x" "int" (SymbolTable.declare "y" "int" SymbolTable.new)))
  = fst (SymbolTable.typeOf "y" (SymbolTable.declare "y" "int" SymbolTable.new)).
Proof.
  apply (C10_declare_frame "x" "int" "y" (SymbolTable.declare "y" "int" SymbolTable.new)).
  discriminate.
Defined.

(** ** [std::stoi] on the lexemes of Number tokens *)

Lemma decimal_nonneg s : forall acc, 0 <= acc -> 0 <= decimal acc s.
Proof.
  induction s as [|c s IH]; intros acc Hacc; simpl; [exact Hacc|].
  destruct (isdigit c) eqn:E; [|exact Hacc].
  apply IH. pose proof (isdigit_value c E). lia.
Qed.

(** On a run of digits that is not empty [stoi] cannot throw
    [invalid_argument]: it returns the value of the run, or throws
    [out_of_range] when the value is above [INT_MAX]. *)
Lemma stoi_digits s :
  s <> EmptyString -> string_forall isdigit s = true ->
  stoi s = if decimal 0 s <=? INT_MAX then Returned (decimal 0 s)
           else Threw out_of_range.
Proof.
  destruct s as [|c s]; [done|]. intros _ Hall.
  simpl in Hall. apply andb_true_iff in Hall as [Hc _].
  pose proof (decimal_nonneg (String c s) 0 (Z.le_refl 0)) as Hpos.
  destruct (isdigit_not_sign c Hc) as [Hminus Hplus].
  unfold stoi. cbn [skip_space].
  rewrite (isdigit_not_space c Hc), Hminus, Hplus, Hc.
  assert ((INT_MIN <=? decimal 0 (String c s)) = true) as ->.
  { apply Z.leb_le. unfold INT_MIN. lia. }
  reflexivity.
Qed.

(** A Number token of the lexer holds a run of digits that is not empty. *)
Lemma number_lexeme L :
  type (fst (Lexer.nextToken L)) = Number ->
  value (fst (Lexer.nextToken L)) <> EmptyString
  /\ string_forall isdigit (value (fst (Lexer.nextToken L))) = true.
Proof.
  destruct (nextToken_cases L)
    as [[_ ->]|[Hlt [(_ & ->)|[(_ & Hd & ->)|[(_ & _ & _ & ->)|(_ & _ & _ & ->)]]]]];
    simpl; try discriminate.
  - by destruct (_ || _).
  - intros _. destruct (scanned_lexeme isdigit _ Hlt Hd) as (_ & Hne & Hall & _).
    auto.
Qed.

(** ** The parser *)

Lemma advances_new k P :
  advances k (Parser.new (Parser.lexer P)) = Parser.new (Parser.lexer (advances k P)).
Proof.
  revert P. induction k as [|k IH]; intros P; simpl; [done|]. by rewrite IH.
Qed.

Lemma lookahead_advances k P : Parser.lookahead k P = Parser.current (advances k P).
Proof. revert P. induction k as [|k IH]; intros P; simpl; auto. Qed.

(** Every token the parser looks at after the first is one the lexer
    made. *)
Lemma lookahead_from_lexer k P :
  Parser.lookahead (S k) P = fst (Lexer.nextToken (Parser.lexer (advances k P))).
Proof.
  rewrite lookahead_advances. change (advances (S k) P) with
    (advances k (Parser.new (Parser.lexer P))).
  rewrite advances_new. unfold Parser.new.
  by destruct (Lexer.nextToken _).
Qed.

(** One step of symbolic execution of a method: projections of the state
    and decided tests are reduced, the lexer is not unfolded. *)
Ltac parser_step :=
  cbn [negb orb andb fst snd Parser.lexer Parser.current].

(** [parseDeclaration] as a decision over the five tokens it may look at:
    the first checkpoint that rejects ends the call on its token with its
    diagnostic; the conversion is made between the fourth and the fifth
    test. *)
Lemma parseDeclaration_run P err :
  Parser.parseDeclaration (P, err) =
    if negb (passes Start P) then
      (Returned None, (advances 0 P, err ++ diagnostic Start (Parser.lookahead 0 P)))
    else if negb (passes AfterType P) then
      (Returned None, (advances 1 P, err ++ diagnostic AfterType (Parser.lookahead 1 P)))
    else if negb (passes AfterName P) then
      (Returned None, (advances 2 P, err ++ diagnostic AfterName (Parser.lookahead 2 P)))
    else if negb (passes AfterEquals P) then
      (Returned None, (advances 3 P, err ++ diagnostic AfterEquals (Parser.lookahead 3 P)))
    else
      match stoi (value (Parser.lookahead 3 P)) with
      | Threw e => (Threw e, (advances 3 P, err))
      | Returned v =>
          if negb (passes AfterValue P) then
            (Returned None,
             (advances 4 P, err ++ diagnostic AfterValue (Parser.lookahead 4 P)))
          else
            (Returned (Some (DeclarationNode (value (Parser.lookahead 0 P))
                               (value (Parser.lookahead 1 P))
                               (Some (NumberNode v)))),
             (advances 5 P, err))
      end.
Proof.
  destruct P as [L0 t0].
  unfold Parser.parseDeclaration, passes, expects, diagnostic, mbind, M_bind, mret, M_ret,
    Parser.get_current, Parser.advance, Parser.cerr, lift_outcome.
  cbn [ordinal Parser.lookahead advances]. unfold Parser.new. parser_step.
  destruct (bool_decide (type t0 = Keyword) && String.eqb (value t0) "int");
    parser_step; [|reflexivity].
  destruct (Lexer.nextToken L0) as [t1 L1]; parser_step.
  rewrite (bool_decide_not (type t1 = Identifier)).
  destruct (bool_decide (type t1 = Identifier)); parser_step; [|reflexivity].
  destruct (Lexer.nextToken L1) as [t2 L2]; parser_step.
  rewrite (bool_decide_not (type t2 = Symbol)).
  destruct (bool_decide (type t2 = Symbol)); parser_step; [|reflexivity].
  destruct (String.eqb (value t2) "="); parser_step; [|reflexivity].
  destruct (Lexer.nextToken L2) as [t3 L3]; parser_step.
  rewrite (bool_decide_not (type t3 = Number)).
  destruct (bool_decide (type t3 = Number)); parser_step; [|reflexivity].
  destruct (stoi (value t3)) as [v|e]; parser_step; [|reflexivity].
  destruct (Lexer.nextToken L3) as [t4 L4]; parser_step.
  rewrite (bool_decide_not (type t4 = Symbol)).
  destruct (bool_decide (type t4 = Symbol)); parser_step; [|reflexivity].
  destruct (String.eqb (value t4) ";"); parser_step; [|reflexivity].
  destruct (Lexer.nextToken L4) as [t5 L5]. reflexivity.
Qed.

Lemma passes_before_intro c P :
  (forall c', (ordinal c' < ordinal c)%nat -> passes c' P = true) ->
  passes_before c P = true.
Proof.
  intros H. unfold passes_before. apply forallb_forall. intros c' Hin.
  apply H. destruct c; cbn [ordinal take checkpoints] in Hin;
    repeat (destruct Hin as [<-|Hin]; [cbn [ordinal]; lia|]); destruct Hin.
Qed.

Lemma passes_all P c :
  forallb (fun c' => passes c' P) checkpoints = true -> passes c P = true.
Proof.
  intros H. apply (proj1 (forallb_forall _ _) H).
  destruct c; cbn [checkpoints In]; tauto.
Qed.

Lemma passes_all_intro P :
  (forall c, passes c P = true) -> forallb (fun c' => passes c' P) checkpoints = true.
Proof. intros H. apply forallb_forall. intros c _. apply H. Qed.

Lemma passes_Start_int P :
  passes Start P = true -> value (Parser.lookahead 0 P) = "int".
Proof.
  unfold passes, expects. cbn [ordinal]. intros H.
  apply andb_true_iff in H as [_ H]. by apply String.eqb_eq in H.
Qed.

Lemma passes_AfterEquals_number P :
  passes AfterEquals P = true -> type (Parser.lookahead 3 P) = Number.
Proof.
  unfold passes, expects. cbn [ordinal]. intros H. by apply bool_decide_eq_true in H.
Qed.

(** What [stoi] returns on the Number token the parser converts. *)
Lemma stoi_number_token P v :
  type (Parser.lookahead 3 P) = Number ->
  stoi (value (Parser.lookahead 3 P)) = Returned v ->
  v = decimal 0 (value (Parser.lookahead 3 P)).
Proof.
  rewrite lookahead_from_lexer. intros Hnum Es.
  destruct (number_lexeme _ Hnum) as [Hne Hall].
  rewrite (stoi_digits _ Hne Hall) in Es.
  destruct (_ <=? _); congruence.
Qed.

(** The three ways a call of [parseDeclaration] ends: a checkpoint rejects
    its token, the conversion throws, or the declaration is accepted. *)
Lemma parse_outcome P err :
  (exists c,
      passes_before c P = true /\ passes c P = false
      /\ Parser.parseDeclaration (P, err)
         = (Returned None,
            (advances (ordinal c) P,
             err ++ diagnostic c (Parser.lookahead (ordinal c) P))))
  \/ (exists e,
      passes_before AfterValue P = true
      /\ stoi (value (Parser.lookahead 3 P)) = Threw e
      /\ Parser.parseDeclaration (P, err) = (Threw e, (advances 3 P, err)))
  \/ (exists v,
      forallb (fun c => passes c P) checkpoints = true
      /\ stoi (value (Parser.lookahead 3 P)) = Returned v
      /\ Parser.parseDeclaration (P, err)
         = (Returned (Some (DeclarationNode (value (Parser.lookahead 0 P))
                              (value (Parser.lookahead 1 P))
                              (Some (NumberNode v)))),
            (advances 5 P, err))).
Proof.
  rewrite parseDeclaration_run.
  pose proof (passes_before_intro Start P) as B0.
  pose proof (passes_before_intro AfterType P) as B1.
  pose proof (passes_before_intro AfterName P) as B2.
  pose proof (passes_before_intro AfterEquals P) as B3.
  pose proof (passes_before_intro AfterValue P) as B4.
  pose proof (passes_all_intro P) as Ball.
  destruct (passes Start P) eqn:E0; cbn [negb].
  2: { left. exists Start. cbn [ordinal] in *. repeat split; auto;
       apply B0; intros [] Hc'; cbn [ordinal] in Hc'; auto; lia. }
  destruct (passes AfterType P) eqn:E1; cbn [negb].
  2: { left. exists AfterType. cbn [ordinal] in *. repeat split; auto;
       apply B1; intros [] Hc'; cbn [ordinal] in Hc'; auto; lia. }
  destruct (passes AfterName P) eqn:E2; cbn [negb].
  2: { left. exists AfterName. cbn [ordinal] in *. repeat split; auto;
       apply B2; intros [] Hc'; cbn [ordinal] in Hc'; auto; lia. }
  destruct (passes AfterEquals P) eqn:E3; cbn [negb].
  2: { left. exists AfterEquals. cbn [ordinal] in *. repeat split; auto;
       apply B3; intros [] Hc'; cbn [ordinal] in Hc'; auto; lia. }
  destruct (stoi (value (Parser.lookahead 3 P))) as [v|e].
  2: { right. left. exists e. repeat split; auto;
       apply B4; intros [] Hc'; cbn [ordinal] in Hc'; auto; lia. }
  destruct (passes AfterValue P) eqn:E4; cbn [negb].
  2: { left. exists AfterValue. cbn [ordinal] in *. repeat split; auto;
       apply B4; intros [] Hc'; cbn [ordinal] in Hc'; auto; lia. }
  right. right. exists v. repeat split; auto;
    apply Ball; intros []; assumption.
Qed.

Lemma substring_prefix s t : String.substring 0 (String.length s) (s ++ t) = s.
Proof.
  induction s as [|c s IH]; simpl.
  - by destruct t.
  - by rewrite IH.
Qed.

(** The diagnostic of the first checkpoint quotes the token it rejects. *)
Lemma contains_unexpected s : contains s ("Unexpected token: " ++ s ++ endl) = true.
Proof.
  unfold contains.
  destruct (String.index 0 s ("Unexpected token: " ++ s ++ endl)) eqn:E; [done|].
  exfalso. destruct (decide (s = EmptyString)) as [->|Hne].
  - apply index_correct4 in E. lia.
  - apply (index_correct3 0 18 s _ E Hne); [lia|].
    cbn [String.append String.substring]. apply substring_prefix.
Qed.

(** The diagnostics of different checkpoints are different texts. *)
Lemma diagnostic_inj c c' tok tok' :
  diagnostic c tok = diagnostic c' tok' -> c = c'.
Proof.
  destruct c, c'; cbn [diagnostic String.append]; intros H;
    try reflexivity; discriminate H.
Qed.

(** C1: parsing "int x = 42;" succeeds, and printing the tree at indent 0
    writes the line "Declaration: int x" and then the line "  Number: 42",
    the second behind exactly two spaces, each ended by a newline. *)
Theorem C1_parse_then_print :
  exists ast P',
    Parser.parseDeclaration (Parser.start "int x = 42;")
      = (Returned (Some ast), (P', EmptyString))
    /\ print 0 ast = "Declaration: int x" ++ endl ++ "  Number: 42" ++ endl.
Proof.
  eexists _, _. split; vm_compute; reflexivity.
Qed.

(** C4: whatever state the parser is in, a result that is present is a
    Declaration of type "int" whose value child is there and is the Number
    node of the integer [stoi] makes of the Number token's text, and nothing
    was written to [std::cerr]; a call that does not end so returns the null
    pointer, after a checkpoint rejected its token and wrote its diagnostic,
    or leaves by the exception of the conversion: no tree is handed out
    half built. *)
Theorem C4_result_is_complete_declaration (P : Parser.t) (err : string) :
  match Parser.parseDeclaration (P, err) with
  | (Returned (Some ast), (P', err')) =>
      exists v,
        type (Parser.lookahead 3 P) = Number
        /\ stoi (value (Parser.lookahead 3 P)) = Returned v
        /\ v = decimal 0 (value (Parser.lookahead 3 P))
        /\ ast = DeclarationNode "int" (value (Parser.lookahead 1 P))
                   (Some (NumberNode v))
        /\ forallb (fun c => passes c P) checkpoints = true
        /\ err' = err
  | (Returned None, (P', err')) =>
      exists c, passes c P = false /\ err' = err ++ diagnostic c (Parser.current P')
  | (Threw e, (P', err')) =>
      passes_before AfterValue P = true
      /\ stoi (value (Parser.lookahead 3 P)) = Threw e /\ err' = err
  end.
Proof.
  destruct (parse_outcome P err)
    as [(c & Hb & Hc & ->)|[(e & Hb & Hs & ->)|(v & Hall & Hs & ->)]].
  - exists c. split; [exact Hc|]. by rewrite lookahead_advances.
  - auto.
  - pose proof (passes_AfterEquals_number P (passes_all P AfterEquals Hall)) as Hnum.
    exists v. rewrite (passes_Start_int P (passes_all P Start Hall)).
    repeat split; auto. exact (stoi_number_token P v Hnum Hs).
Qed.

(** C5, as the code has it: when the first four checkpoints accept, the
    text of the Number token is a run of digits that is not empty, so the
    conversion never fails for want of a number ([invalid_argument] cannot
    occur).  When the value of the run is at most [INT_MAX] the conversion
    returns it and [parseDeclaration] goes on to its last checkpoint with
    that value, so it ends by returning and not by an exception.  When the
    value is larger the conversion throws [out_of_range] and that exception
    reaches the caller: [parseDeclaration] leaves by it, holding the Number
    token, with no tree and nothing written to [std::cerr]. *)
Theorem C5_conversion_fails_only_out_of_range (P : Parser.t) (err : string) :
  passes_before AfterValue P = true ->
  let lexeme := value (Parser.lookahead 3 P) in
  lexeme <> EmptyString
  /\ string_forall isdigit lexeme = true
  /\ stoi lexeme <> Threw invalid_argument
  /\ (decimal 0 lexeme <= INT_MAX ->
      stoi lexeme = Returned (decimal 0 lexeme)
      /\ Parser.parseDeclaration (P, err)
         = (if passes AfterValue P
            then (Returned (Some (DeclarationNode "int" (value (Parser.lookahead 1 P))
                                    (Some (NumberNode (decimal 0 lexeme))))),
                  (advances 5 P, err))
            else (Returned None,
                  (advances 4 P,
                   err ++ diagnostic AfterValue (Parser.lookahead 4 P))))
      /\ forall e, fst (Parser.parseDeclaration (P, err)) <> Threw e)
  /\ (INT_MAX < decimal 0 lexeme ->
      stoi lexeme = Threw out_of_range
      /\ Parser.parseDeclaration (P, err) = (Threw out_of_range, (advances 3 P, err))).
Proof.
  unfold passes_before. cbn [forallb take ordinal checkpoints].
  rewrite !andb_true_iff. intros (E0 & E1 & E2 & E3 & _). cbn zeta.
  assert (value (Parser.lookahead 3 P) <> EmptyString
          /\ string_forall isdigit (value (Parser.lookahead 3 P)) = true) as [Hne Hall].
  { pose proof (passes_AfterEquals_number P E3) as Hnum.
    rewrite lookahead_from_lexer in Hnum |- *. exact (number_lexeme _ Hnum). }
  pose proof (stoi_digits _ Hne Hall) as Hstoi.
  pose proof (parseDeclaration_run P err) as Hrun.
  rewrite E0, E1, E2, E3, Hstoi, (passes_Start_int P E0) in Hrun. cbn [negb] in Hrun.
  rewrite Hstoi, Hrun.
  destruct (Z.leb_spec (decimal 0 (value (Parser.lookahead 3 P))) INT_MAX) as [Hle|Hgt].
  - repeat split; auto; try discriminate; try lia.
    + by destruct (passes AfterValue P).
    + intros e. by destruct (passes AfterValue P).
  - repeat split; auto; try discriminate; lia.
Qed.

Lemma C5_conversion_fails_only_out_of_range_witness :
  stoi (value (Parser.lookahead 3 (Parser.new (Lexer.new "int x = 42;"))))
  = Returned (decimal 0 (value (Parser.lookahead 3 (Parser.new (Lexer.new "int x = 42;")))))
  /\ Parser.parseDeclaration (Parser.new (Lexer.new "int x = 99999999999;"), EmptyString)
     = (Threw out_of_range,
        (advances 3 (Parser.new (Lexer.new "int x = 99999999999;")), EmptyString)).
Proof.
  split.
  - refine (proj1 (proj1 (proj2 (proj2 (proj2
             (C5_conversion_fails_only_out_of_range
                (Parser.new (Lexer.new "int x = 42;")) EmptyString _)))) _)).
    + vm_compute. reflexivity.
    + vm_compute. discriminate.
  - refine (proj2 (proj2 (proj2 (proj2 (proj2
             (C5_conversion_fails_only_out_of_range
                (Parser.new (Lexer.new "int x = 99999999999;")) EmptyString _)))) _)).
    + vm_compute. reflexivity.
    + vm_compute. reflexivity.
Defined.

(** C5 as it is worded fails on "int x = 99999999999;": the first four
    checkpoints accept, the Number token holds "99999999999", and the
    conversion throws [out_of_range], which ends [parseDeclaration]. *)
Lemma C5_conversion_can_fail :
  passes_before AfterValue (Parser.new (Lexer.new "int x = 99999999999;")) = true
  /\ Parser.lookahead 3 (Parser.new (Lexer.new "int x = 99999999999;"))
     = mkToken Number "99999999999" 1 19
  /\ stoi "99999999999" = Threw out_of_range
  /\ fst (Parser.parseDeclaration (Parser.start "int x = 99999999999;"))
     = Threw out_of_range.
Proof. vm_compute. auto. Qed.

(** C6, as the code has it: a call that returns the null pointer stopped
    at the first checkpoint that rejected its token; the parser is left
    holding that token, having pulled no token beyond it; one diagnostic was
    written, which tells the checkpoint; the token's text is part of the
    diagnostic at the Start checkpoint, the other four write a fixed text. *)
Theorem C6_failure_is_terminal_and_reported
    (P P' : Parser.t) (err err' : string) :
  Parser.parseDeclaration (P, err) = (Returned None, (P', err')) ->
  exists c,
    passes_before c P = true
    /\ passes c P = false
    /\ P' = advances (ordinal c) P
    /\ err' = err ++ diagnostic c (Parser.current P')
    /\ (forall c' tok, diagnostic c' tok = diagnostic c (Parser.current P') -> c' = c)
    /\ (c = Start ->
        contains (value (Parser.current P')) (diagnostic c (Parser.current P')) = true)
    /\ (c <> Start -> forall tok, diagnostic c tok = diagnostic c (Parser.current P')).
Proof.
  intros Hrun.
  destruct (parse_outcome P err)
    as [(c & Hb & Hc & Heq)|[(e & _ & _ & Heq)|(v & _ & _ & Heq)]];
    rewrite Heq in Hrun; [|discriminate Hrun..].
  assert (P' = advances (ordinal c) P) as -> by congruence.
  assert (err' = err ++ diagnostic c (Parser.lookahead (ordinal c) P)) as ->
    by congruence.
  rewrite lookahead_advances.
  exists c. repeat split; auto.
  - intros c' tok. apply diagnostic_inj.
  - intros ->. apply contains_unexpected.
  - intros Hne tok. by destruct c.
Qed.

Lemma C6_failure_is_terminal_and_reported_witness :
  exists c,
    passes_before c (Parser.new (Lexer.new "return 0;")) = true
    /\ passes c (Parser.new (Lexer.new "return 0;")) = false
    /\ Parser.new (Lexer.new "return 0;")
       = advances (ordinal c) (Parser.new (Lexer.new "return 0;"))
    /\ "Unexpected token: return" ++ endl
       = EmptyString ++ diagnostic c
           (Parser.current (Parser.new (Lexer.new "return 0;")))
    /\ (forall c' tok,
          diagnostic c' tok
          = diagnostic c (Parser.current (Parser.new (Lexer.new "return 0;"))) ->
          c' = c)
    /\ (c = Start ->
        contains (value (Parser.current (Parser.new (Lexer.new "return 0;"))))
          (diagnostic c (Parser.current (Parser.new (Lexer.new "return 0;")))) = true)
    /\ (c <> Start -> forall tok,
          diagnostic c tok
          = diagnostic c (Parser.current (Parser.new (Lexer.new "return 0;")))).
Proof.
  apply (C6_failure_is_terminal_and_reported
           (Parser.new (Lexer.new "return 0;")) (Parser.new (Lexer.new "return 0;"))
           EmptyString ("Unexpected token: return" ++ endl)).
  vm_compute. reflexivity.
Defined.

(** C6 as it is worded fails on "int x 42;": the call returns the null
    pointer at the AfterName checkpoint, whose token is Number "42", and the
    diagnostic written, "Expected '=' after identifier", does not contain
    "42". *)
Lemma C6_diagnostic_lacks_token_text :
  Parser.parseDeclaration (Parser.start "int x 42;")
    = (Returned None,
       (advances 2 (Parser.new (Lexer.new "int x 42;")),
        "Expected '=' after identifier" ++ endl))
  /\ Parser.current (advances 2 (Parser.new (Lexer.new "int x 42;")))
     = mkToken Number "42" 1 9
  /\ contains "42" ("Expected '=' after identifier" ++ endl) = false.
Proof. vm_compute. auto. Qed.

(** C8: on "int x 42;" the Start and AfterType checkpoints accept Keyword
    "int" and Identifier "x", the AfterName checkpoint rejects the third
    token, Number "42", and [parseDeclaration] returns the null pointer after
    writing "Expected '=' after identifier". *)
Theorem C8_missing_equals_fails_after_name :
  passes_before AfterName (Parser.new (Lexer.new "int x 42;")) = true
  /\ map (fun k => (type (Parser.lookahead k (Parser.new (Lexer.new "int x 42;"))),
                    value (Parser.lookahead k (Parser.new (Lexer.new "int x 42;")))))
         [0; 1; 2]%nat
     = [(Keyword, "int"); (Identifier, "x"); (Number, "42")]
  /\ passes AfterName (Parser.new (Lexer.new "int x 42;")) = false
  /\ Parser.parseDeclaration (Parser.start "int x 42;")
     = (Returned None,
        (advances 2 (Parser.new (Lexer.new "int x 42;")),
         diagnostic AfterName (mkToken Number "42" 1 9))).
Proof. vm_compute. auto. Qed.

(** * Further properties of the code *)

(** ** The lexer: lexemes, progress and end of input *)

Lemma substring_zero s : forall n, String.substring n 0 s = EmptyString.
Proof. induction s as [|a s IH]; intros [|n]; simpl; auto. Qed.

Lemma substring_cons s : forall n m,
  (n < String.length s)%nat ->
  String.substring n (S m) s = String (char_at s n) (String.substring (S n) m s).
Proof.
  induction s as [|a s IH]; intros n m Hn; simpl in Hn; [lia|].
  destruct n as [|n]; [reflexivity|].
  change (String.substring (S n) (S m) (String a s)) with (String.substring n (S m) s).
  rewrite IH by lia. reflexivity.
Qed.

Lemma substring_one s n :
  (n < String.length s)%nat ->
  String.substring n 1 s = String (char_at s n) EmptyString.
Proof. intros H. by rewrite substring_cons, substring_zero. Qed.

(** A token that is not EndOfFile holds exactly the characters of the
    buffer between the end of the white space that was skipped and the
    place where the lexer stops; that stretch is not empty and lies inside
    the buffer, the characters skipped before it are all white space, and
    the buffer itself is left as it was. *)
Lemma nextToken_span (L : Lexer.t) :
  let L0 := Lexer.scan isspace L in
  let tok := fst (Lexer.nextToken L) in
  let L' := snd (Lexer.nextToken L) in
  type tok <> EndOfFile ->
  Lexer.src L' = Lexer.src L
  /\ (Lexer.pos L <= Lexer.pos L0 < Lexer.pos L')%nat
  /\ (Lexer.pos L' <= String.length (Lexer.src L))%nat
  /\ (forall i, (Lexer.pos L <= i < Lexer.pos L0)%nat ->
        isspace (char_at (Lexer.src L) i) = true)
  /\ isspace (char_at (Lexer.src L) (Lexer.pos L0)) = false
  /\ value tok
     = String.substring (Lexer.pos L0) (Lexer.pos L' - Lexer.pos L0) (Lexer.src L).
Proof.
  cbn zeta.
  destruct (scan_spec isspace L) as (Hs0 & Hle0 & _ & Hall0 & _ & Hexit0).
  cbn zeta in *.
  assert ((Lexer.pos (Lexer.scan isspace L) < String.length (Lexer.src L))%nat ->
          isspace (char_at (Lexer.src L) (Lexer.pos (Lexer.scan isspace L))) = false)
    as Hns.
  { intros Hlt. apply Nat.ltb_lt in Hlt. by rewrite Hlt in Hexit0. }
  destruct (nextToken_cases L)
    as [[_ ->]|[Hlt [(Ha & ->)|[(_ & Hd & ->)|[(_ & _ & _ & ->)|(_ & _ & _ & ->)]]]]];
    cbn [fst snd type value Lexer.identifier Lexer.number Lexer.symbol];
    intros Hty; try done.
  - assert (isalnum (char_at (Lexer.src (Lexer.scan isspace L))
                      (Lexer.pos (Lexer.scan isspace L))) = true) as Hn.
    { unfold isalnum. by rewrite Ha. }
    destruct (scanned_lexeme isalnum _ Hlt Hn) as (Hpos & _).
    destruct (scan_spec isalnum (Lexer.scan isspace L)) as (Hs1 & _).
    cbn zeta in *. rewrite Hs1, Hs0 in *. repeat split; auto; lia.
  - destruct (scanned_lexeme isdigit _ Hlt Hd) as (Hpos & _).
    destruct (scan_spec isdigit (Lexer.scan isspace L)) as (Hs1 & _).
    cbn zeta in *. rewrite Hs1, Hs0 in *. repeat split; auto; lia.
  - cbn [Lexer.bump Lexer.src Lexer.pos]. rewrite Hs0 in *.
    replace (S (Lexer.pos (Lexer.scan isspace L)) - Lexer.pos (Lexer.scan isspace L))%nat
      with 1%nat by lia.
    rewrite substring_one by exact Hlt. repeat split; auto; lia.
  - cbn [Lexer.bump Lexer.src Lexer.pos]. rewrite Hs0 in *.
    replace (S (Lexer.pos (Lexer.scan isspace L)) - Lexer.pos (Lexer.scan isspace L))%nat
      with 1%nat by lia.
    rewrite substring_one by exact Hlt. repeat split; auto; lia.
Qed.

(** X1: a token that is not EndOfFile holds exactly the characters of the
    buffer between the end of the white space that was skipped and the
    place where the lexer stops; that stretch is not empty and lies inside
    the buffer, the characters skipped before it are all white space, and
    the buffer itself is left as it was. *)
Theorem nextToken_lexeme (L : Lexer.t) :
  let L0 := Lexer.scan isspace L in
  let tok := fst (Lexer.nextToken L) in
  let L' := snd (Lexer.nextToken L) in
  type tok <> EndOfFile ->
  Lexer.src L' = Lexer.src L
  /\ (Lexer.pos L <= Lexer.pos L0 < Lexer.pos L')%nat
  /\ (Lexer.pos L' <= String.length (Lexer.src L))%nat
  /\ (forall i, (Lexer.pos L <= i < Lexer.pos L0)%nat ->
        isspace (char_at (Lexer.src L) i) = true)
  /\ isspace (char_at (Lexer.src L) (Lexer.pos L0)) = false
  /\ value tok
     = String.substring (Lexer.pos L0) (Lexer.pos L' - Lexer.pos L0) (Lexer.src L).
Proof. exact (nextToken_span L). Qed.

Lemma nextToken_lexeme_witness :
  value (fst (Lexer.nextToken (Lexer.mk "a  <=b" 1 1 2)))
  = String.substring 3 (4 - 3) "a  <=b".
Proof.
  apply (nextToken_lexeme (Lexer.mk "a  <=b" 1 1 2)). vm_compute. discriminate.
Defined.

(** A call either reports the end of the input, and then a further call
    does the same from the same state, or it moves the cursor forward inside
    the buffer. *)
Lemma nextToken_eof_or_progress L :
  let tok := fst (Lexer.nextToken L) in
  let L' := snd (Lexer.nextToken L) in
  Lexer.src L' = Lexer.src L
  /\ ((type tok = EndOfFile /\ value tok = EmptyString
       /\ (String.length (Lexer.src L) <= Lexer.pos L')%nat
       /\ Lexer.nextToken L' = Lexer.nextToken L)
      \/ (type tok <> EndOfFile /\ (Lexer.pos L < Lexer.pos L')%nat)).
Proof.
  cbn zeta. destruct (decide (type (fst (Lexer.nextToken L)) = EndOfFile)) as [He|Hne].
  - destruct (scan_spec isspace L) as (Hs0 & _). cbn zeta in Hs0.
    destruct (nextToken_cases L)
      as [[Hge Heq]|[_ [(_ & Heq)|[(_ & _ & Heq)|[(_ & _ & _ & Heq)|(_ & _ & _ & Heq)]]]]];
      rewrite Heq in He |- *; cbn [fst snd type value Lexer.identifier Lexer.number
                                   Lexer.symbol] in He |- *; try discriminate He.
    + split; [exact Hs0|]. left.
      rewrite (nextToken_eof_again _ Hge). rewrite Hs0 in Hge. repeat split; auto.
    + exfalso. revert He. by destruct (_ || _).
  - destruct (nextToken_span L Hne) as (Hs & Hpos & _). split; [exact Hs|].
    right. split; [exact Hne|lia].
Qed.

(** X2: once a call has returned EndOfFile, every later call returns the
    same token and leaves the lexer where it is. *)
Theorem eof_is_absorbing (L : Lexer.t) :
  type (fst (Lexer.nextToken L)) = EndOfFile ->
  Lexer.nextToken (snd (Lexer.nextToken L)) = Lexer.nextToken L
  /\ forall n, lexer_after (S n) L = snd (Lexer.nextToken L).
Proof.
  intros He.
  destruct (nextToken_eof_or_progress L) as (_ & [(_ & _ & _ & Hagain)|[Hne _]]);
    [|done].
  split; [exact Hagain|].
  intros n. induction n as [|n IH]; [reflexivity|].
  change (lexer_after (S (S n)) L)
    with (lexer_after (S n) (snd (Lexer.nextToken L))).
  cbn [lexer_after] in *. rewrite Hagain. exact IH.
Qed.

Lemma eof_is_absorbing_witness :
  Lexer.nextToken (snd (Lexer.nextToken (Lexer.new "   ")))
  = Lexer.nextToken (Lexer.new "   ")
  /\ forall n, lexer_after (S n) (Lexer.new "   ")
               = snd (Lexer.nextToken (Lexer.new "   ")).
Proof. apply (eof_is_absorbing (Lexer.new "   ")). vm_compute. reflexivity. Defined.

Lemma lexer_after_pos n : forall L,
  Lexer.src (lexer_after n L) = Lexer.src L
  /\ ((String.length (Lexer.src L) <= Lexer.pos (lexer_after n L))%nat
      \/ (Lexer.pos L + n <= Lexer.pos (lexer_after n L))%nat).
Proof.
  induction n as [|n IH]; intros L; cbn [lexer_after].
  - split; [reflexivity|]. right. lia.
  - destruct (nextToken_eof_or_progress L) as (Hs & Hstep). cbn zeta in *.
    destruct (IH (snd (Lexer.nextToken L))) as (Hsn & Hn). rewrite Hs in *.
    split; [exact Hsn|].
    destruct Hstep as [(_ & _ & Hge & _)|[_ Hlt]]; destruct Hn; auto; lia.
Qed.

(** X3: lexing ends.  After as many calls as characters are left in the
    buffer, every call returns EndOfFile with the empty text: a buffer of [n]
    characters gives at most [n] tokens before EndOfFile. *)
Theorem lexer_reaches_eof (L : Lexer.t) (n : nat) :
  (String.length (Lexer.src L) - Lexer.pos L <= n)%nat ->
  type (fst (Lexer.nextToken (lexer_after n L))) = EndOfFile
  /\ value (fst (Lexer.nextToken (lexer_after n L))) = EmptyString.
Proof.
  intros Hn. destruct (lexer_after_pos n L) as (Hs & Hpos).
  assert (String.length (Lexer.src (lexer_after n L))
          <= Lexer.pos (lexer_after n L))%nat as Hge.
  { rewrite Hs. lia. }
  rewrite (nextToken_eof_again _ Hge). auto.
Qed.

Lemma lexer_reaches_eof_witness :
  type (fst (Lexer.nextToken (lexer_after 5 (Lexer.new "a = 1")))) = EndOfFile
  /\ value (fst (Lexer.nextToken (lexer_after 5 (Lexer.new "a = 1")))) = EmptyString.
Proof. apply (lexer_reaches_eof (Lexer.new "a = 1") 5). vm_compute. lia. Defined.

(** The lexeme of [identifier()] begins with the letter that made
    [nextToken()] choose it. *)
Lemma scanned_lexeme_head p L :
  (Lexer.pos L < String.length (Lexer.src L))%nat ->
  p (char_at (Lexer.src L) (Lexer.pos L)) = true ->
  exists rest,
    String.substring (Lexer.pos L) (Lexer.pos (Lexer.scan p L) - Lexer.pos L)
      (Lexer.src (Lexer.scan p L))
    = String (char_at (Lexer.src L) (Lexer.pos L)) rest.
Proof.
  intros Hlt Hp. destruct (scanned_lexeme p L Hlt Hp) as (Hpos & _).
  destruct (scan_spec p L) as (Hs & _). cbn zeta in *. rewrite Hs.
  destruct (Lexer.pos (Lexer.scan p L) - Lexer.pos L)%nat as [|m] eqn:E; [lia|].
  rewrite substring_cons by exact Hlt. eauto.
Qed.

(** X4: the kind of a token tells the shape of its text.  EndOfFile has the
    empty text; a Number is a run of digits that is not empty; an Identifier
    or Keyword begins with a letter and holds letters and digits only; a
    Symbol is one punctuation character; an Unknown token is one character
    that is neither white space, nor a letter or digit, nor punctuation. *)
Theorem token_text_shape (L : Lexer.t) :
  let tok := fst (Lexer.nextToken L) in
  match type tok with
  | EndOfFile => value tok = EmptyString
  | Number => value tok <> EmptyString /\ string_forall isdigit (value tok) = true
  | Identifier | Keyword =>
      (exists c rest, value tok = String c rest /\ isalpha c = true)
      /\ string_forall isalnum (value tok) = true
  | Symbol => exists c, value tok = String c EmptyString /\ ispunct c = true
  | Unknown =>
      exists c, value tok = String c EmptyString
                /\ isspace c = false /\ isalnum c = false /\ ispunct c = false
  end.
Proof.
  cbn zeta.
  destruct (scan_spec isspace L) as (Hs0 & _ & _ & _ & _ & Hexit0). cbn zeta in *.
  destruct (nextToken_cases L)
    as [[_ ->]|[Hlt [(Ha & ->)|[(Ha & Hd & ->)|[(Ha & Hd & Hp & ->)|(Ha & Hd & Hp & ->)]]]]];
    cbn [fst snd type value Lexer.identifier Lexer.number Lexer.symbol].
  - reflexivity.
  - assert (isalnum (char_at (Lexer.src (Lexer.scan isspace L))
                      (Lexer.pos (Lexer.scan isspace L))) = true) as Hn.
    { unfold isalnum. by rewrite Ha. }
    destruct (scanned_lexeme isalnum _ Hlt Hn) as (_ & _ & Hall & _).
    destruct (scanned_lexeme_head isalnum _ Hlt Hn) as [rest Hrest].
    cbn zeta in *.
    assert ((exists c rest0,
               String.substring (Lexer.pos (Lexer.scan isspace L))
                 (Lexer.pos (Lexer.scan isalnum (Lexer.scan isspace L))
                  - Lexer.pos (Lexer.scan isspace L))
                 (Lexer.src (Lexer.scan isalnum (Lexer.scan isspace L)))
               = String c rest0 /\ isalpha c = true)) as Hhead by eauto.
    by destruct (_ || _).
  - destruct (scanned_lexeme isdigit _ Hlt Hd) as (_ & Hne & Hall & _). auto.
  - eauto.
  - assert (isspace (char_at (Lexer.src (Lexer.scan isspace L))
                      (Lexer.pos (Lexer.scan isspace L))) = false) as Hsp.
    { rewrite Hs0 in *. apply Nat.ltb_lt in Hlt. by rewrite Hlt in Hexit0. }
    eexists. repeat split; auto. unfold isalnum. by rewrite Ha, Hd.
Qed.

(** ** The lexer: white space before a token *)

Lemma length_app_string a b :
  String.length (a ++ b) = (String.length a + String.length b)%nat.
Proof. induction a as [|c a IH]; simpl; [reflexivity|]. by rewrite IH. Qed.

Lemma char_at_shift pre s i : char_at (pre ++ s) (String.length pre + i) = char_at s i.
Proof. induction pre as [|c pre IH]; simpl; [reflexivity|]. exact IH. Qed.

Lemma char_at_prefix p pre s : forall i,
  string_forall p pre = true -> (i < String.length pre)%nat ->
  p (char_at (pre ++ s) i) = true.
Proof.
  induction pre as [|c pre IH]; intros i Hall Hi; simpl in *; [lia|].
  apply andb_true_iff in Hall as [Hc Hall].
  destruct i as [|i]; [exact Hc|]. apply IH; [exact Hall|lia].
Qed.

Lemma substring_shift pre s n m :
  String.substring (String.length pre + n) m (pre ++ s) = String.substring n m s.
Proof. induction pre as [|c pre IH]; simpl; [reflexivity|]. exact IH. Qed.

Lemma shifted_test p pre L1 L2 :
  shifted pre L1 L2 ->
  (Lexer.pos L1 <? String.length (Lexer.src L1))%nat
  = (Lexer.pos L2 <? String.length (Lexer.src L2))%nat
  /\ char_at (Lexer.src L1) (Lexer.pos L1) = char_at (Lexer.src L2) (Lexer.pos L2)
  /\ (String.length (Lexer.src L1) - Lexer.pos L1
      = String.length (Lexer.src L2) - Lexer.pos L2)%nat
  /\ (Lexer.pos L1 <? String.length (Lexer.src L1))%nat
       && p (char_at (Lexer.src L1) (Lexer.pos L1))
     = (Lexer.pos L2 <? String.length (Lexer.src L2))%nat
         && p (char_at (Lexer.src L2) (Lexer.pos L2)).
Proof.
  intros [Hs Hp]. rewrite Hs, Hp, length_app_string, char_at_shift.
  assert ((String.length pre + Lexer.pos L2
           <? String.length pre + String.length (Lexer.src L2))%nat
          = (Lexer.pos L2 <? String.length (Lexer.src L2))%nat) as ->.
  { destruct (Nat.ltb_spec (Lexer.pos L2) (String.length (Lexer.src L2)));
      [apply Nat.ltb_lt|apply Nat.ltb_ge]; lia. }
  repeat split; auto. lia.
Qed.

Lemma advance_shifted pre L1 L2 :
  shifted pre L1 L2 -> shifted pre (Lexer.advance L1) (Lexer.advance L2).
Proof.
  intros [Hs Hp]. unfold shifted. rewrite !advance_src, !advance_pos. split; [exact Hs|lia].
Qed.

Lemma advance_while_shifted p pre fuel : forall L1 L2,
  shifted pre L1 L2 ->
  shifted pre (Lexer.advance_while p fuel L1) (Lexer.advance_while p fuel L2).
Proof.
  induction fuel as [|fuel IH]; intros L1 L2 H; cbn [Lexer.advance_while]; [exact H|].
  destruct (shifted_test p pre L1 L2 H) as (_ & _ & _ & ->).
  destruct ((Lexer.pos L2 <? String.length (Lexer.src L2))%nat
            && p (char_at (Lexer.src L2) (Lexer.pos L2))); [|exact H].
  apply IH, advance_shifted, H.
Qed.

Lemma scan_shifted p pre L1 L2 :
  shifted pre L1 L2 -> shifted pre (Lexer.scan p L1) (Lexer.scan p L2).
Proof.
  intros H. unfold Lexer.scan.
  destruct (shifted_test p pre L1 L2 H) as (_ & _ & -> & _).
  apply advance_while_shifted, H.
Qed.

Lemma scanned_text_shifted p pre L1 L2 :
  shifted pre L1 L2 ->
  String.substring (Lexer.pos L1) (Lexer.pos (Lexer.scan p L1) - Lexer.pos L1)
    (Lexer.src (Lexer.scan p L1))
  = String.substring (Lexer.pos L2) (Lexer.pos (Lexer.scan p L2) - Lexer.pos L2)
      (Lexer.src (Lexer.scan p L2)).
Proof.
  intros H. destruct (scan_shifted p pre L1 L2 H) as [Hs' Hp']. destruct H as [Hs Hp].
  rewrite Hs', Hp', Hp.
  replace (String.length pre + Lexer.pos (Lexer.scan p L2)
           - (String.length pre + Lexer.pos L2))%nat
    with (Lexer.pos (Lexer.scan p L2) - Lexer.pos L2)%nat by lia.
  apply substring_shift.
Qed.

(** Two lexers that stand at the same character of the same text, one of
    them behind a prefix, make the same token and stay together; their
    [line] and [column] play no part. *)
Lemma nextToken_shifted pre L1 L2 :
  shifted pre L1 L2 ->
  type (fst (Lexer.nextToken L1)) = type (fst (Lexer.nextToken L2))
  /\ value (fst (Lexer.nextToken L1)) = value (fst (Lexer.nextToken L2))
  /\ shifted pre (snd (Lexer.nextToken L1)) (snd (Lexer.nextToken L2)).
Proof.
  intros H. pose proof (scan_shifted isspace pre L1 L2 H) as H0.
  unfold Lexer.nextToken.
  destruct (shifted_test isspace pre _ _ H0) as (Hlt & Hc & _ & _).
  assert ((String.length (Lexer.src (Lexer.scan isspace L1))
           <=? Lexer.pos (Lexer.scan isspace L1))%nat
          = (String.length (Lexer.src (Lexer.scan isspace L2))
             <=? Lexer.pos (Lexer.scan isspace L2))%nat) as ->.
  { rewrite !Nat.leb_antisym. by rewrite Hlt. }
  rewrite Hc.
  destruct (String.length _ <=? _)%nat; [by cbn|].
  destruct (isalpha _).
  { cbn [Lexer.identifier fst snd type value].
    rewrite (scanned_text_shifted isalnum pre _ _ H0).
    repeat split; auto; apply scan_shifted, H0. }
  destruct (isdigit _).
  { cbn [Lexer.number fst snd type value].
    rewrite (scanned_text_shifted isdigit pre _ _ H0).
    repeat split; auto; apply scan_shifted, H0. }
  destruct H0 as [Hs0 Hp0].
  assert (shifted pre (Lexer.bump (Lexer.scan isspace L1))
            (Lexer.bump (Lexer.scan isspace L2))) as Hbump.
  { split; cbn [Lexer.bump Lexer.src Lexer.pos]; [exact Hs0|lia]. }
  destruct (ispunct _); cbn [Lexer.symbol fst snd type value]; rewrite ?Hc;
    repeat split; auto; apply Hbump.
Qed.

(** Skipping the white space first changes nothing. *)
Lemma nextToken_after_skip L : Lexer.nextToken (Lexer.scan isspace L) = Lexer.nextToken L.
Proof.
  destruct (scan_spec isspace L) as (Hs & _ & _ & _ & _ & Hexit). cbn zeta in *.
  unfold Lexer.nextToken at 1. rewrite scan_stuck; [reflexivity|].
  by rewrite Hs.
Qed.

(** Where a scanning loop stops is determined by the buffer. *)
Lemma scan_stop_unique p L q :
  (Lexer.pos L <= q)%nat ->
  (q <= Nat.max (Lexer.pos L) (String.length (Lexer.src L)))%nat ->
  (forall i, (Lexer.pos L <= i < q)%nat -> p (char_at (Lexer.src L) i) = true) ->
  (q <? String.length (Lexer.src L))%nat && p (char_at (Lexer.src L) q) = false ->
  Lexer.pos (Lexer.scan p L) = q.
Proof.
  intros Hle Hmax Hall Hexit.
  destruct (scan_spec p L) as (_ & Hle' & Hmax' & Hall' & _ & Hexit'). cbn zeta in *.
  destruct (lt_eq_lt_dec (Lexer.pos (Lexer.scan p L)) q) as [[Hlt|Heq]|Hgt]; [|exact Heq|].
  - rewrite (Hall _ (conj Hle' Hlt)), andb_true_r in Hexit'.
    apply Nat.ltb_ge in Hexit'. lia.
  - rewrite (Hall' _ (conj Hle Hgt)), andb_true_r in Hexit.
    apply Nat.ltb_ge in Hexit. lia.
Qed.

(** X5: white space put before a text does not change the first token:
    its kind and its text are those the text alone gives. *)
Theorem leading_space_is_skipped (ws s : string) :
  string_forall isspace ws = true ->
  type (fst (Lexer.nextToken (Lexer.new (ws ++ s))))
    = type (fst (Lexer.nextToken (Lexer.new s)))
  /\ value (fst (Lexer.nextToken (Lexer.new (ws ++ s))))
     = value (fst (Lexer.nextToken (Lexer.new s))).
Proof.
  intros Hws.
  set (La := Lexer.mk (ws ++ s) (String.length ws) 1 1).
  assert (shifted ws La (Lexer.new s)) as Hshift.
  { split; cbn; [reflexivity|lia]. }
  destruct (nextToken_shifted ws La (Lexer.new s) Hshift) as (Hty & Hval & _).
  rewrite <- Hty, <- Hval.
  rewrite <- (nextToken_after_skip (Lexer.new (ws ++ s))), <- (nextToken_after_skip La).
  destruct (scan_spec isspace La) as (Hsa & Hlea & Hmaxa & Halla & _ & Hexita).
  destruct (scan_spec isspace (Lexer.new (ws ++ s))) as (Hs1 & _).
  cbn zeta in *. cbn [La Lexer.src Lexer.pos Lexer.new] in *.
  assert (shifted EmptyString (Lexer.scan isspace (Lexer.new (ws ++ s)))
            (Lexer.scan isspace La)) as Hsame.
  { split; [by rewrite Hs1, Hsa|]. cbn [String.length Nat.add].
    apply scan_stop_unique; cbn [Lexer.src Lexer.pos Lexer.new].
    - lia.
    - rewrite length_app_string in *. lia.
    - intros i [_ Hi]. destruct (le_lt_dec (String.length ws) i) as [Hge|Hlt].
      + apply Halla. lia.
      + apply char_at_prefix; assumption.
    - exact Hexita. }
  destruct (nextToken_shifted _ _ _ Hsame) as (Hty' & Hval' & _). auto.
Qed.

Lemma leading_space_is_skipped_witness :
  type (fst (Lexer.nextToken (Lexer.new ("  " ++ "int x"))))
    = type (fst (Lexer.nextToken (Lexer.new "int x")))
  /\ value (fst (Lexer.nextToken (Lexer.new ("  " ++ "int x"))))
     = value (fst (Lexer.nextToken (Lexer.new "int x"))).
Proof. apply (leading_space_is_skipped "  " "int x"). vm_compute. reflexivity. Defined.

(** ** The lexer: line numbers *)

Lemma advance_line L :
  Lexer.line L = fst (cursor_at (Lexer.src L) (Lexer.pos L)) ->
  Lexer.line (Lexer.advance L)
  = fst (cursor_at (Lexer.src (Lexer.advance L)) (Lexer.pos (Lexer.advance L))).
Proof.
  intros H. rewrite advance_src, advance_pos. cbn [cursor_at].
  unfold Lexer.advance, cursor_step.
  destruct (Ascii.eqb _ _); cbn [Lexer.line fst]; by rewrite H.
Qed.

Lemma advance_while_line p fuel : forall L,
  Lexer.line L = fst (cursor_at (Lexer.src L) (Lexer.pos L)) ->
  Lexer.line (Lexer.advance_while p fuel L)
  = fst (cursor_at (Lexer.src (Lexer.advance_while p fuel L))
           (Lexer.pos (Lexer.advance_while p fuel L))).
Proof.
  induction fuel as [|fuel IH]; intros L H; cbn [Lexer.advance_while]; [exact H|].
  destruct ((Lexer.pos L <? String.length (Lexer.src L))%nat
            && p (char_at (Lexer.src L) (Lexer.pos L))); [|exact H].
  apply IH, advance_line, H.
Qed.

Lemma bump_line L :
  isspace (char_at (Lexer.src L) (Lexer.pos L)) = false ->
  Lexer.line L = fst (cursor_at (Lexer.src L) (Lexer.pos L)) ->
  Lexer.line (Lexer.bump L)
  = fst (cursor_at (Lexer.src (Lexer.bump L)) (Lexer.pos (Lexer.bump L))).
Proof.
  intros Hsp H. cbn [Lexer.bump Lexer.line Lexer.src Lexer.pos cursor_at].
  unfold cursor_step.
  destruct (Ascii.eqb_spec (char_at (Lexer.src L) (Lexer.pos L)) newline) as [Heq|_];
    [|exact H].
  rewrite Heq in Hsp. vm_compute in Hsp. discriminate.
Qed.

(** The line of the lexer stays exact over a call, and the token carries
    it. *)
Lemma nextToken_line L :
  Lexer.line L = fst (cursor_at (Lexer.src L) (Lexer.pos L)) ->
  let tok := fst (Lexer.nextToken L) in
  let L' := snd (Lexer.nextToken L) in
  line tok = Lexer.line L'
  /\ Lexer.line L' = fst (cursor_at (Lexer.src L') (Lexer.pos L')).
Proof.
  intros H. cbn zeta.
  pose proof (advance_while_line isspace
                (String.length (Lexer.src L) - Lexer.pos L) L H) as H0.
  fold (Lexer.scan isspace L) in H0.
  destruct (scan_spec isspace L) as (_ & _ & _ & _ & _ & Hexit). cbn zeta in Hexit.
  destruct (scan_spec isspace L) as (Hs0 & _). cbn zeta in Hs0.
  destruct (nextToken_cases L)
    as [[_ ->]|[Hlt [(_ & ->)|[(_ & _ & ->)|[(_ & _ & _ & ->)|(_ & _ & _ & ->)]]]]];
    cbn [fst snd line Lexer.identifier Lexer.number Lexer.symbol].
  - auto.
  - split; [reflexivity|]. apply advance_while_line, H0.
  - split; [reflexivity|]. apply advance_while_line, H0.
  - split; [reflexivity|]. apply bump_line; [|exact H0].
    rewrite Hs0. rewrite Hs0 in Hlt. apply Nat.ltb_lt in Hlt. by rewrite Hlt in Hexit.
  - split; [reflexivity|]. apply bump_line; [|exact H0].
    rewrite Hs0. rewrite Hs0 in Hlt. apply Nat.ltb_lt in Hlt. by rewrite Hlt in Hexit.
Qed.

Lemma lexer_after_line n : forall L,
  Lexer.line L = fst (cursor_at (Lexer.src L) (Lexer.pos L)) ->
  Lexer.line (lexer_after n L)
  = fst (cursor_at (Lexer.src (lexer_after n L)) (Lexer.pos (lexer_after n L))).
Proof.
  induction n as [|n IH]; intros L H; cbn [lexer_after]; [exact H|].
  apply IH. apply (nextToken_line L H).
Qed.

(** X6: line numbers are exact for every token of every buffer, whatever
    kinds of tokens came before: the [line] of the token returned by any call
    is 1 plus the number of newlines among the characters consumed so far
    (the first component of [cursor_at]). *)
Theorem token_line_is_exact (s : string) (n : nat) :
  line (fst (Lexer.nextToken (lexer_after n (Lexer.new s))))
  = fst (cursor_at s (Lexer.pos (snd (Lexer.nextToken (lexer_after n (Lexer.new s)))))).
Proof.
  assert (Lexer.line (lexer_after n (Lexer.new s))
          = fst (cursor_at (Lexer.src (lexer_after n (Lexer.new s)))
                   (Lexer.pos (lexer_after n (Lexer.new s))))) as H.
  { apply lexer_after_line. reflexivity. }
  destruct (nextToken_line _ H) as [Htok Hline]. cbn zeta in *.
  rewrite Htok, Hline.
  destruct (nextToken_eof_or_progress (lexer_after n (Lexer.new s))) as (Hs & _).
  destruct (lexer_after_pos n (Lexer.new s)) as (Hsn & _).
  cbn zeta in *. by rewrite Hs, Hsn.
Qed.

(** ** The parser: when it accepts, throws, and how far it reads *)

Lemma passes_before_elim c c' P :
  passes_before c P = true -> (ordinal c' < ordinal c)%nat -> passes c' P = true.
Proof.
  unfold passes_before. intros H Hlt.
  apply (proj1 (forallb_forall _ _) H).
  destruct c, c'; cbn [ordinal] in Hlt; try lia; cbn [ordinal take checkpoints In]; tauto.
Qed.

(** The conversion of the Number token the parser holds at its fourth
    checkpoint. *)
Lemma stoi_number_cases P :
  passes AfterEquals P = true ->
  stoi (value (Parser.lookahead 3 P))
  = if decimal 0 (value (Parser.lookahead 3 P)) <=? INT_MAX
    then Returned (decimal 0 (value (Parser.lookahead 3 P)))
    else Threw out_of_range.
Proof.
  intros H. apply passes_AfterEquals_number in H.
  rewrite lookahead_from_lexer in H |- *.
  destruct (number_lexeme _ H) as [Hne Hall]. exact (stoi_digits _ Hne Hall).
Qed.

(** X7: [parseDeclaration] hands out a tree exactly when the five tokens
    it looks at are Keyword "int", an Identifier, Symbol "=", a Number and
    Symbol ";", and the Number is at most [INT_MAX]; if so it has pulled
    five tokens and written nothing to [std::cerr]. *)
Theorem parse_succeeds_iff (P : Parser.t) (err : string) :
  ((exists ast, fst (Parser.parseDeclaration (P, err)) = Returned (Some ast))
   <-> forallb (fun c => passes c P) checkpoints = true
       /\ decimal 0 (value (Parser.lookahead 3 P)) <= INT_MAX)
  /\ (forall ast, fst (Parser.parseDeclaration (P, err)) = Returned (Some ast) ->
      snd (Parser.parseDeclaration (P, err)) = (advances 5 P, err)).
Proof.
  destruct (parse_outcome P err)
    as [(c & Hb & Hc & Heq)|[(e & Hb & Hs & Heq)|(v & Hall & Hs & Heq)]];
    rewrite Heq; cbn [fst snd].
  - split; [split|]; [intros [ast H]; discriminate H| |intros ast H; discriminate H].
    intros [Hall _]. rewrite (passes_all P c Hall) in Hc. discriminate Hc.
  - split; [split|]; [intros [ast H]; discriminate H| |intros ast H; discriminate H].
    intros [Hall Hle]. rewrite (stoi_number_cases P (passes_all P AfterEquals Hall)) in Hs.
    apply Z.leb_le in Hle. rewrite Hle in Hs. discriminate Hs.
  - split; [split|]; [|eauto|reflexivity].
    intros _. split; [exact Hall|].
    rewrite (stoi_number_cases P (passes_all P AfterEquals Hall)) in Hs.
    apply Z.leb_le. by destruct (_ <=? _).
Qed.

Lemma parse_succeeds_iff_witness :
  exists ast,
    fst (Parser.parseDeclaration (Parser.new (Lexer.new "int n=007;"), EmptyString))
    = Returned (Some ast).
Proof.
  apply (parse_succeeds_iff (Parser.new (Lexer.new "int n=007;")) EmptyString).
  split; vm_compute; [reflexivity|discriminate].
Defined.

(** X8: [parseDeclaration] leaves by an exception exactly when the first
    four checkpoints accept and the Number is above [INT_MAX]; the exception
    is [out_of_range], nothing is written to [std::cerr], and the parser is
    left holding the Number token. *)
Theorem parse_throws_iff (P : Parser.t) (err : string) (e : exception) :
  (fst (Parser.parseDeclaration (P, err)) = Threw e
   <-> e = out_of_range
       /\ passes_before AfterValue P = true
       /\ INT_MAX < decimal 0 (value (Parser.lookahead 3 P)))
  /\ (fst (Parser.parseDeclaration (P, err)) = Threw e ->
      snd (Parser.parseDeclaration (P, err)) = (advances 3 P, err)
      /\ type (Parser.current (advances 3 P)) = Number).
Proof.
  destruct (parse_outcome P err)
    as [(c & Hb & Hc & Heq)|[(e' & Hb & Hs & Heq)|(v & Hall & Hs & Heq)]];
    rewrite Heq; cbn [fst snd].
  - split; [split|]; [discriminate| |discriminate].
    intros (_ & Hfour & Hgt). exfalso.
    assert (passes Start P = true) as E0
      by (apply (passes_before_elim AfterValue Start P Hfour); cbn; lia).
    assert (passes AfterType P = true) as E1
      by (apply (passes_before_elim AfterValue AfterType P Hfour); cbn; lia).
    assert (passes AfterName P = true) as E2
      by (apply (passes_before_elim AfterValue AfterName P Hfour); cbn; lia).
    assert (passes AfterEquals P = true) as E3
      by (apply (passes_before_elim AfterValue AfterEquals P Hfour); cbn; lia).
    destruct c; try congruence.
    pose proof (parseDeclaration_run P err) as Hrun. rewrite Heq in Hrun.
    rewrite E0, E1, E2, E3, (stoi_number_cases P E3) in Hrun.
    apply Z.leb_gt in Hgt. rewrite Hgt in Hrun. cbn [negb] in Hrun. discriminate Hrun.
  - pose proof (stoi_number_cases P (passes_before_elim AfterValue AfterEquals P Hb
                  ltac:(cbn; lia))) as Hstoi.
    rewrite Hs in Hstoi.
    destruct (Z.leb_spec (decimal 0 (value (Parser.lookahead 3 P))) INT_MAX) as [Hle|Hgt];
      [discriminate Hstoi|]. injection Hstoi as ->.
    split; [split|].
    + intros [= <-]. auto.
    + intros (-> & _). reflexivity.
    + intros _. split; [reflexivity|]. rewrite <- lookahead_advances.
      apply passes_AfterEquals_number.
      apply (passes_before_elim AfterValue AfterEquals P Hb). cbn; lia.
  - split; [split|]; [discriminate| |discriminate].
    intros (_ & _ & Hgt). exfalso.
    rewrite (stoi_number_cases P (passes_all P AfterEquals Hall)) in Hs.
    apply Z.leb_gt in Hgt. rewrite Hgt in Hs. discriminate Hs.
Qed.

Lemma parse_throws_iff_witness :
  fst (Parser.parseDeclaration (Parser.new (Lexer.new "int n = 2147483648;"), EmptyString))
  = Threw out_of_range.
Proof.
  apply (parse_throws_iff (Parser.new (Lexer.new "int n = 2147483648;")) EmptyString
           out_of_range).
  repeat split; vm_compute; reflexivity.
Defined.

(** An Identifier token of the lexer is a word that is not a keyword: it
    begins with a letter, holds letters and digits only, and is neither "int"
    nor "return". *)
Lemma identifier_lexeme L :
  type (fst (Lexer.nextToken L)) = Identifier ->
  (exists c rest, value (fst (Lexer.nextToken L)) = String c rest /\ isalpha c = true)
  /\ string_forall isalnum (value (fst (Lexer.nextToken L))) = true
  /\ value (fst (Lexer.nextToken L)) <> "int"
  /\ value (fst (Lexer.nextToken L)) <> "return".
Proof.
  destruct (nextToken_cases L)
    as [[_ ->]|[Hlt [(Ha & ->)|[(_ & _ & ->)|[(_ & _ & _ & ->)|(_ & _ & _ & ->)]]]]];
    cbn [fst snd type value Lexer.identifier Lexer.number Lexer.symbol];
    try discriminate.
  assert (isalnum (char_at (Lexer.src (Lexer.scan isspace L))
                    (Lexer.pos (Lexer.scan isspace L))) = true) as Hn.
  { unfold isalnum. by rewrite Ha. }
  destruct (scanned_lexeme isalnum _ Hlt Hn) as (_ & _ & Hall & _).
  destruct (scanned_lexeme_head isalnum _ Hlt Hn) as [rest Hrest].
  cbn zeta in *. rewrite Hrest in *.
  destruct (String.eqb_spec (String (char_at (Lexer.src (Lexer.scan isspace L))
              (Lexer.pos (Lexer.scan isspace L))) rest) "int") as [|Hint];
    [discriminate|].
  destruct (String.eqb_spec (String (char_at (Lexer.src (Lexer.scan isspace L))
              (Lexer.pos (Lexer.scan isspace L))) rest) "return") as [|Hret];
    [discriminate|].
  intros _. repeat split; eauto.
Qed.

(** X9: what a successful parse can declare.  The declared name begins
    with a letter, holds letters and digits only and is not a keyword; the
    value lies between 0 and [INT_MAX]: no tree holds a negative number. *)
Theorem parsed_declaration_is_well_formed (P : Parser.t) (err : string) (ast : ASTNode) :
  fst (Parser.parseDeclaration (P, err)) = Returned (Some ast) ->
  exists name v,
    ast = DeclarationNode "int" name (Some (NumberNode v))
    /\ (exists c rest, name = String c rest /\ isalpha c = true)
    /\ string_forall isalnum name = true
    /\ name <> "int" /\ name <> "return"
    /\ 0 <= v <= INT_MAX.
Proof.
  destruct (parse_outcome P err)
    as [(c & _ & _ & Heq)|[(e & _ & _ & Heq)|(v & Hall & Hs & Heq)]];
    rewrite Heq; cbn [fst]; intros H; try discriminate H.
  assert (ast = DeclarationNode (value (Parser.lookahead 0 P))
                  (value (Parser.lookahead 1 P)) (Some (NumberNode v))) as ->
    by congruence.
  exists (value (Parser.lookahead 1 P)), v.
  rewrite (passes_Start_int P (passes_all P Start Hall)).
  pose proof (passes_all P AfterType Hall) as E1.
  unfold passes, expects in E1. cbn [ordinal] in E1. apply bool_decide_eq_true in E1.
  rewrite lookahead_from_lexer in E1 |- *.
  destruct (identifier_lexeme _ E1) as (Hhead & Halnum & Hint & Hret).
  rewrite (stoi_number_cases P (passes_all P AfterEquals Hall)) in Hs.
  destruct (Z.leb_spec (decimal 0 (value (Parser.lookahead 3 P))) INT_MAX) as [Hle|Hgt];
    [|discriminate Hs].
  assert (v = decimal 0 (value (Parser.lookahead 3 P))) as -> by congruence.
  pose proof (decimal_nonneg (value (Parser.lookahead 3 P)) 0 (Z.le_refl 0)).
  repeat split; auto.
Qed.

Lemma parsed_declaration_is_well_formed_witness :
  exists name v,
    DeclarationNode "int" "x1" (Some (NumberNode 7))
    = DeclarationNode "int" name (Some (NumberNode v))
    /\ (exists c rest, name = String c rest /\ isalpha c = true)
    /\ string_forall isalnum name = true
    /\ name <> "int" /\ name <> "return"
    /\ 0 <= v <= INT_MAX.
Proof.
  apply (parsed_declaration_is_well_formed (Parser.new (Lexer.new "int x1 = 7 ;"))
           EmptyString).
  vm_compute. reflexivity.
Defined.

Lemma nextToken_pos_le L : (Lexer.pos L <= Lexer.pos (snd (Lexer.nextToken L)))%nat.
Proof.
  destruct (scan_spec isspace L) as (_ & Hle & _). cbn zeta in Hle.
  destruct (nextToken_cases L)
    as [[_ ->]|[_ [(_ & ->)|[(_ & _ & ->)|[(_ & _ & _ & ->)|(_ & _ & _ & ->)]]]]];
    cbn [snd Lexer.identifier Lexer.number Lexer.symbol Lexer.bump Lexer.pos];
    try lia.
  - destruct (scan_spec isalnum (Lexer.scan isspace L)) as (_ & Hle' & _).
    cbn zeta in Hle'. lia.
  - destruct (scan_spec isdigit (Lexer.scan isspace L)) as (_ & Hle' & _).
    cbn zeta in Hle'. lia.
Qed.

Lemma new_lexer L :
  Parser.lexer (Parser.new L) = snd (Lexer.nextToken L).
Proof. unfold Parser.new. by destruct (Lexer.nextToken L). Qed.

Lemma advances_lexer k : forall P,
  Lexer.src (Parser.lexer (advances k P)) = Lexer.src (Parser.lexer P)
  /\ (Lexer.pos (Parser.lexer P) <= Lexer.pos (Parser.lexer (advances k P)))%nat.
Proof.
  induction k as [|k IH]; intros P; cbn [advances]; [split; [reflexivity|lia]|].
  destruct (IH (Parser.new (Parser.lexer P))) as [Hs Hp].
  rewrite new_lexer in Hs, Hp.
  destruct (nextToken_eof_or_progress (Parser.lexer P)) as (Hs' & _). cbn zeta in Hs'.
  pose proof (nextToken_pos_le (Parser.lexer P)).
  rewrite Hs' in Hs. split; [exact Hs|lia].
Qed.

(** X10: however a call of [parseDeclaration] ends, the parser has pulled
    at most five tokens, one after the other, and none is put back: the
    buffer of the lexer is as before and its cursor is not behind where it
    was.  What was on [std::cerr] before the call is still there, at the
    front. *)
Theorem parse_reads_forward (P : Parser.t) (err : string) :
  let P' := fst (snd (Parser.parseDeclaration (P, err))) in
  let err' := snd (snd (Parser.parseDeclaration (P, err))) in
  (exists k, (k <= 5)%nat /\ P' = advances k P)
  /\ Lexer.src (Parser.lexer P') = Lexer.src (Parser.lexer P)
  /\ (Lexer.pos (Parser.lexer P) <= Lexer.pos (Parser.lexer P'))%nat
  /\ exists msg, err' = err ++ msg.
Proof.
  cbn zeta.
  assert (forall s, s = s ++ EmptyString) as Hnil.
  { intros s. induction s as [|c s IH]; [reflexivity|].
    change (String c s = String c (s ++ EmptyString)). f_equal. exact IH. }
  destruct (parse_outcome P err)
    as [(c & _ & _ & Heq)|[(e & _ & _ & Heq)|(v & _ & _ & Heq)]];
    rewrite Heq; cbn [fst snd].
  - destruct (advances_lexer (ordinal c) P) as [Hs Hp].
    split; [exists (ordinal c); split; [destruct c; cbn; lia|reflexivity]|].
    repeat split; eauto.
  - destruct (advances_lexer 3 P) as [Hs Hp].
    split; [exists 3%nat; split; [lia|reflexivity]|].
    repeat split; eauto.
  - destruct (advances_lexer 5 P) as [Hs Hp].
    split; [exists 5%nat; split; [lia|reflexivity]|].
    repeat split; eauto.
Qed.

Lemma string_forall_char_at p s : forall i,
  string_forall p s = true -> (i < String.length s)%nat -> p (char_at s i) = true.
Proof.
  induction s as [|c s IH]; intros i Hall Hi; simpl in *; [lia|].
  apply andb_true_iff in Hall as [Hc Hall].
  destruct i as [|i]; [exact Hc|]. apply IH; [exact Hall|lia].
Qed.

(** A buffer of white space only (the empty one too) gives EndOfFile at
    once. *)
Lemma nextToken_blank ws :
  string_forall isspace ws = true ->
  exists L', Lexer.nextToken (Lexer.new ws)
             = (mkToken EndOfFile EmptyString (Lexer.line L') (Lexer.column L'), L').
Proof.
  intros Hws. exists (Lexer.scan isspace (Lexer.new ws)).
  apply nextToken_eof.
  destruct (scan_spec isspace (Lexer.new ws)) as (_ & _ & _ & _ & _ & Hexit).
  cbn zeta in Hexit. cbn [Lexer.new Lexer.src] in *.
  destruct (le_lt_dec (String.length ws) (Lexer.pos (Lexer.scan isspace (Lexer.new ws))))
    as [Hge|Hlt]; [exact Hge|].
  rewrite (string_forall_char_at isspace ws _ Hws Hlt), andb_true_r in Hexit.
  apply Nat.ltb_ge in Hexit. exact Hexit.
Qed.

(** X11: on a buffer that holds white space only, the empty buffer
    included, [parseDeclaration] fails at the first checkpoint: it returns
    the null pointer and writes "Unexpected token: " with nothing behind the
    colon, because the token is EndOfFile with the empty text. *)
Theorem blank_input_fails_at_start (ws : string) :
  string_forall isspace ws = true ->
  fst (Parser.parseDeclaration (Parser.start ws)) = Returned None
  /\ snd (snd (Parser.parseDeclaration (Parser.start ws))) = "Unexpected token: " ++ endl
  /\ type (Parser.current (Parser.new (Lexer.new ws))) = EndOfFile.
Proof.
  intros Hws. destruct (nextToken_blank ws Hws) as [L' Hnext].
  unfold Parser.start. rewrite parseDeclaration_run.
  assert (Parser.new (Lexer.new ws)
          = Parser.mk L' (mkToken EndOfFile EmptyString (Lexer.line L') (Lexer.column L')))
    as ->.
  { unfold Parser.new. by rewrite Hnext. }
  unfold passes, expects. cbn [ordinal Parser.lookahead Parser.current type].
  rewrite bool_decide_eq_false_2 by discriminate.
  cbn [andb negb fst snd diagnostic value]. auto.
Qed.

Lemma blank_input_fails_at_start_witness :
  fst (Parser.parseDeclaration (Parser.start EmptyString)) = Returned None
  /\ snd (snd (Parser.parseDeclaration (Parser.start EmptyString)))
     = "Unexpected token: " ++ endl
  /\ type (Parser.current (Parser.new (Lexer.new EmptyString))) = EndOfFile.
Proof. apply (blank_input_fails_at_start EmptyString). reflexivity. Defined.

(** ** Printing: indentation *)

Lemma append_cons c a b : String c a ++ b = String c (a ++ b).
Proof. reflexivity. Qed.

Lemma append_assoc_string a b c : (a ++ b) ++ c = a ++ (b ++ c).
Proof.
  induction a as [|x a IH]; [reflexivity|]. rewrite !append_cons. f_equal. exact IH.
Qed.

Lemma append_nil_string s : s ++ EmptyString = s.
Proof.
  induction s as [|c s IH]; [reflexivity|]. rewrite append_cons. f_equal. exact IH.
Qed.

Lemma string_forall_app p a b :
  string_forall p (a ++ b) = string_forall p a && string_forall p b.
Proof.
  induction a as [|x a IH]; [reflexivity|].
  rewrite append_cons. cbn [string_forall]. by rewrite IH, andb_assoc.
Qed.

Lemma repeat_char_add k n c :
  repeat_char (k + n) c = repeat_char k c ++ repeat_char n c.
Proof.
  induction k as [|k IH]; [reflexivity|].
  cbn [Nat.add repeat_char]. rewrite append_cons. f_equal. exact IH.
Qed.

Lemma repeat_char_forall p n c : p c = true -> string_forall p (repeat_char n c) = true.
Proof. intros H. induction n as [|n IH]; simpl; [reflexivity|]. by rewrite H, IH. Qed.

Lemma string_of_uint_forall (p : ascii -> bool) d :
  (forall c, isdigit c = true -> p c = true) ->
  string_forall p (NilEmpty.string_of_uint d) = true.
Proof.
  intros Hp. induction d; cbn [NilEmpty.string_of_uint string_forall];
    rewrite ?IHd, ?andb_true_r; try reflexivity; apply Hp; reflexivity.
Qed.

Lemma isdigit_not_newline c : isdigit c = true -> not_newline c = true.
Proof.
  intros H. unfold not_newline. apply negb_true_iff, Ascii.eqb_neq. intros ->.
  vm_compute in H. discriminate.
Qed.

(** What [<<] writes for an [int] holds no newline. *)
Lemma string_of_int_one_line v : string_forall not_newline (string_of_int v) = true.
Proof.
  unfold string_of_int.
  assert (forall d, string_forall not_newline (NilZero.string_of_uint d) = true) as H.
  { intros d. pose proof (string_of_uint_forall not_newline d isdigit_not_newline) as Hd.
    destruct d; auto. }
  destruct (Z.to_int v); cbn [NilZero.string_of_int string_forall]; rewrite H; reflexivity.
Qed.

(** Indenting a text whose first line is [text]. *)
Lemma indent_from_line k text rest : forall b,
  string_forall not_newline text = true ->
  indent_from k b (text ++ endl ++ rest)
  = (if b then repeat_char k " " else EmptyString)
    ++ text ++ endl ++ indent_from k true rest.
Proof.
  induction text as [|c text IH]; intros b H.
  - change (indent_from k b (String newline rest)
            = (if b then repeat_char k " " else EmptyString)
              ++ String newline (indent_from k true rest)).
    cbn [indent_from]. by rewrite Ascii.eqb_refl.
  - cbn [string_forall] in H. apply andb_true_iff in H as [Hc H].
    unfold not_newline in Hc. apply negb_true_iff in Hc.
    change (indent_from k b (String c (text ++ endl ++ rest))
            = (if b then repeat_char k " " else EmptyString)
              ++ String c (text ++ endl ++ indent_from k true rest)).
    cbn [indent_from]. rewrite Hc, (IH false H). reflexivity.
Qed.

Lemma indent_lines_line k n text rest :
  string_forall not_newline text = true ->
  indent_lines k ((repeat_char n " " ++ text ++ endl) ++ rest)
  = (repeat_char (k + n) " " ++ text ++ endl) ++ indent_lines k rest.
Proof.
  intros H. unfold indent_lines.
  assert (string_forall not_newline (repeat_char n " " ++ text) = true) as Hline.
  { rewrite string_forall_app, H, repeat_char_forall; reflexivity. }
  replace ((repeat_char n " " ++ text ++ endl) ++ rest)
    with ((repeat_char n " " ++ text) ++ endl ++ rest)
    by (by rewrite !append_assoc_string).
  rewrite (indent_from_line k _ rest true Hline), repeat_char_add.
  by rewrite !append_assoc_string.
Qed.

(** X12: the indentation contract of [print].  For a tree whose names hold
    no newline, printing at indent [k + n] gives the text printed at indent
    [n] with [k] more spaces before every line; so printing at indent [k] is
    printing at indent 0 moved right by [k] spaces. *)
Theorem print_indent_shifts_lines (k : nat) :
  forall (node : ASTNode) (n : nat),
    single_line_names node = true ->
    print (k + n) node = indent_lines k (print n node).
Proof.
  fix IH 1. intros node n H.
  destruct node as [v|name|ty name value].
  - cbn [print].
    change (repeat_char n " " ++ "Number: " ++ string_of_int v ++ endl)
      with (repeat_char n " " ++ ("Number: " ++ string_of_int v) ++ endl).
    rewrite <- (append_nil_string (repeat_char n " " ++ _ ++ endl)).
    rewrite indent_lines_line by apply (string_of_int_one_line v).
    change (indent_lines k EmptyString) with EmptyString.
    by rewrite append_nil_string.
  - cbn [print single_line_names] in *.
    change (repeat_char n " " ++ "Identifier: " ++ name ++ endl)
      with (repeat_char n " " ++ ("Identifier: " ++ name) ++ endl).
    rewrite <- (append_nil_string (repeat_char n " " ++ _ ++ endl)).
    rewrite indent_lines_line by exact H.
    change (indent_lines k EmptyString) with EmptyString.
    by rewrite append_nil_string.
  - cbn [print single_line_names] in *.
    apply andb_true_iff in H as [H Hchild]. apply andb_true_iff in H as [Hty Hname].
    assert (forall m, repeat_char m " " ++ "Declaration: " ++ ty ++ " " ++ name ++ endl
                      = repeat_char m " " ++ ("Declaration: " ++ ty ++ " " ++ name) ++ endl)
      as Hhead.
    { intros m. by rewrite !append_assoc_string. }
    rewrite !Hhead.
    rewrite indent_lines_line.
    2: { rewrite !string_forall_app, Hty, Hname. reflexivity. }
    f_equal. destruct value as [child|]; [|reflexivity].
    rewrite <- Nat.add_assoc. apply IH. exact Hchild.
Qed.

Lemma print_indent_shifts_lines_witness :
  print (3 + 0) (DeclarationNode "int" "x" (Some (NumberNode 42)))
  = indent_lines 3 (print 0 (DeclarationNode "int" "x" (Some (NumberNode 42)))).
Proof.
  apply (print_indent_shifts_lines 3 (DeclarationNode "int" "x" (Some (NumberNode 42))) 0).
  reflexivity.
Defined.

(** ** Printing a number and converting it back *)

(** Replaces the code of a character literal by its value. *)
Ltac eval_char_code :=
  repeat match goal with
  | |- context [nat_of_ascii ?c] =>
      let n := eval vm_compute in (nat_of_ascii c) in
      change (nat_of_ascii c) with n
  end.

Lemma decimal_step acc c s :
  isdigit c = true ->
  decimal acc (String c s) = decimal (10 * acc + (Z.of_nat (nat_of_ascii c) - 48)) s.
Proof. intros H. cbn [decimal]. by rewrite H. Qed.

Lemma decimal_of_uint_acc d : forall acc,
  decimal (Z.pos acc) (NilEmpty.string_of_uint d) = Z.pos (Pos.of_uint_acc d acc).
Proof.
  induction d; intros acc; cbn [NilEmpty.string_of_uint Pos.of_uint_acc];
    [reflexivity|..];
    rewrite decimal_step by reflexivity; rewrite <- IHd; f_equal;
    eval_char_code; lia.
Qed.

Lemma decimal_of_uint d :
  decimal 0 (NilEmpty.string_of_uint d) = Z.of_N (Pos.of_uint d).
Proof.
  induction d; cbn [NilEmpty.string_of_uint Pos.of_uint]; [reflexivity|..];
    rewrite decimal_step by reflexivity; eval_char_code;
    [exact IHd|apply decimal_of_uint_acc..].
Qed.

(** The digits [<<] writes for a positive number are read back as that
    number. *)
Lemma decimal_to_uint p :
  NilZero.string_of_uint (Pos.to_uint p) <> EmptyString
  /\ string_forall isdigit (NilZero.string_of_uint (Pos.to_uint p)) = true
  /\ decimal 0 (NilZero.string_of_uint (Pos.to_uint p)) = Z.pos p.
Proof.
  pose proof (Unsigned.to_uint_nonnil p) as Hnil.
  pose proof (Unsigned.of_to p) as Hof.
  pose proof (decimal_of_uint (Pos.to_uint p)) as Hdec.
  pose proof (string_of_uint_forall isdigit (Pos.to_uint p) (fun c H => H)) as Hall.
  rewrite Hof in Hdec.
  destruct (Pos.to_uint p); [done|..]; cbn [NilZero.string_of_uint]; auto.
Qed.

(** [stoi] on a minus sign followed by digits. *)
Lemma stoi_minus_digits s :
  s <> EmptyString -> string_forall isdigit s = true ->
  stoi (String "-" s) = if INT_MIN <=? - decimal 0 s then Returned (- decimal 0 s)
                        else Threw out_of_range.
Proof.
  destruct s as [|c s]; [done|]. intros _ Hall.
  cbn [string_forall] in Hall. apply andb_true_iff in Hall as [Hc _].
  pose proof (decimal_nonneg (String c s) 0 (Z.le_refl 0)) as Hpos.
  unfold stoi. cbn [skip_space].
  change (isspace "-") with false. cbn iota. change (Ascii.eqb "-" "-") with true.
  cbn iota. rewrite Hc.
  assert ((- decimal 0 (String c s) <=? INT_MAX) = true) as ->.
  { apply Z.leb_le. unfold INT_MAX. lia. }
  by rewrite andb_true_r.
Qed.

(** X13: a number survives being printed and converted back.  For every
    value of an [int], [stoi] applied to what [<<] writes for it returns that
    value. *)
Theorem stoi_of_printed_int (v : Z) :
  INT_MIN <= v <= INT_MAX -> stoi (string_of_int v) = Returned v.
Proof.
  intros [Hlo Hhi]. unfold string_of_int. destruct v as [|p|p].
  - reflexivity.
  - cbn [Z.to_int NilZero.string_of_int].
    destruct (decimal_to_uint p) as (Hne & Hall & Hdec).
    rewrite (stoi_digits _ Hne Hall), Hdec.
    apply Z.leb_le in Hhi. by rewrite Hhi.
  - cbn [Z.to_int NilZero.string_of_int].
    destruct (decimal_to_uint p) as (Hne & Hall & Hdec).
    rewrite (stoi_minus_digits _ Hne Hall), Hdec.
    change (- Z.pos p) with (Z.neg p). apply Z.leb_le in Hlo. by rewrite Hlo.
Qed.

Lemma stoi_of_printed_int_witness : stoi (string_of_int 2147483647) = Returned 2147483647.
Proof. apply (stoi_of_printed_int 2147483647). vm_compute. split; discriminate. Defined.

(** ** The symbol table: order of declarations, and queries *)

Lemma declare_commute n1 t1 n2 t2 st :
  n1 <> n2 ->
  SymbolTable.declare n1 t1 (SymbolTable.declare n2 t2 st)
  = SymbolTable.declare n2 t2 (SymbolTable.declare n1 t1 st).
Proof.
  intros Hne. unfold SymbolTable.declare. cbn [SymbolTable.symbols]. f_equal.
  by apply insert_insert_ne.
Qed.

(** X14: the order of declarations does not matter when the names are all
    different: two sequences of [declare] calls that are permutations of each
    other leave the same table. *)
Theorem declare_order_is_irrelevant (calls calls' : list (string * string)) :
  calls ≡ₚ calls' -> NoDup calls.*1 ->
  forall st, SymbolTable.declare_all calls st = SymbolTable.declare_all calls' st.
Proof.
  induction 1 as [|[n t] l l' Hperm IH|[n1 t1] [n2 t2] l|l l' l'' H1 IH1 H2 IH2];
    intros Hdup st.
  - reflexivity.
  - cbn [fmap list_fmap] in Hdup. apply NoDup_cons in Hdup as [_ Hdup].
    unfold SymbolTable.declare_all. cbn [fold_left]. apply (IH Hdup).
  - cbn in Hdup. apply NoDup_cons in Hdup as [Hnotin _].
    apply not_elem_of_cons in Hnotin as [Hne _].
    unfold SymbolTable.declare_all. cbn [fold_left fst snd].
    by rewrite (declare_commute n1 t1 n2 t2 st).
  - rewrite (IH1 Hdup st). apply IH2.
    assert (l.*1 ≡ₚ l'.*1) as Hp by (by apply fmap_Permutation).
    by rewrite <- Hp.
Qed.

Lemma declare_order_is_irrelevant_witness :
  SymbolTable.declare_all [("x", "int"); ("y", "int")] SymbolTable.new
  = SymbolTable.declare_all [("y", "int"); ("x", "int")] SymbolTable.new.
Proof.
  apply (declare_order_is_irrelevant [("x", "int"); ("y", "int")]
           [("y", "int"); ("x", "int")]).
  - apply perm_swap.
  - cbn. apply NoDup_cons. split.
    + intros H. apply elem_of_cons in H as [H|H]; [discriminate H|].
      by apply elem_of_nil in H.
    + apply NoDup_cons. split; [apply not_elem_of_nil|apply NoDup_nil_2].
Defined.

(** X15: what is declared can be queried, on any table: after
    [declare(n, t)], [exists(n)] is true and [typeOf(n)] is [t]; declaring
    [n] again leaves no trace of the earlier type, and declaring it with the
    type it has changes nothing. *)
Theorem declare_then_query (n t t' : string) (st : SymbolTable.t) :
  fst (SymbolTable.exists_ n (SymbolTable.declare n t st)) = true
  /\ fst (SymbolTable.typeOf n (SymbolTable.declare n t st)) = t
  /\ SymbolTable.declare n t' (SymbolTable.declare n t st) = SymbolTable.declare n t' st
  /\ (SymbolTable.symbols st !! n = Some t -> SymbolTable.declare n t st = st).
Proof.
  unfold SymbolTable.exists_, SymbolTable.typeOf, SymbolTable.declare.
  cbn [fst SymbolTable.symbols]. rewrite lookup_insert_eq.
  repeat split.
  - f_equal. apply insert_insert_eq.
  - intros H. destruct st as [m]. cbn [SymbolTable.symbols] in *. f_equal.
    by apply insert_id.
Qed.

(** X16: a name that was never declared has the empty type, so a type
    that is not empty proves the name is there; the empty type proves
    nothing, since a name can be declared with it. *)
Theorem typeOf_of_missing_name (n : string) (st : SymbolTable.t) :
  (fst (SymbolTable.exists_ n st) = false -> fst (SymbolTable.typeOf n st) = EmptyString)
  /\ (fst (SymbolTable.typeOf n st) <> EmptyString ->
      fst (SymbolTable.exists_ n st) = true)
  /\ fst (SymbolTable.typeOf n (SymbolTable.declare n EmptyString st)) = EmptyString
  /\ fst (SymbolTable.exists_ n (SymbolTable.declare n EmptyString st)) = true.
Proof.
  unfold SymbolTable.exists_, SymbolTable.typeOf, SymbolTable.declare.
  cbn [fst SymbolTable.symbols]. rewrite lookup_insert_eq.
  destruct (SymbolTable.symbols st !! n); repeat split; auto; try discriminate;
    intros H; by destruct H.
Qed.

Lemma typeOf_of_missing_name_witness :
  fst (SymbolTable.typeOf "x" SymbolTable.new) = EmptyString.
Proof. apply (proj1 (typeOf_of_missing_name "x" SymbolTable.new)). reflexivity. Defined.

Lemma declare_then_query_witness :
  SymbolTable.declare "x" "int" (SymbolTable.declare "x" "int" SymbolTable.new)
  = SymbolTable.declare "x" "int" SymbolTable.new.
Proof.
  apply (proj2 (proj2 (proj2
           (declare_then_query "x" "int" "int"
              (SymbolTable.declare "x" "int" SymbolTable.new))))).
  cbn [SymbolTable.declare SymbolTable.symbols]. apply lookup_insert_eq.
Defined.

(** ** Token positions: witnesses *)

Lemma nextToken_position_scanned_witness :
  (line (fst (Lexer.nextToken (Lexer.new "ab 12"))),
   column (fst (Lexer.nextToken (Lexer.new "ab 12"))))
  = cursor_at "ab 12" (Lexer.pos (snd (Lexer.nextToken (Lexer.new "ab 12"))))
  /\ in_sync (snd (Lexer.nextToken (Lexer.new "ab 12"))).
Proof.
  apply (nextToken_position_scanned (Lexer.new "ab 12")).
  - reflexivity.
  - vm_compute. discriminate.
  - vm_compute. discriminate.
Defined.

Lemma nextToken_position_single_witness :
  Lexer.pos (snd (Lexer.nextToken (Lexer.new " =")))
  = S (Lexer.pos (Lexer.scan isspace (Lexer.new " =")))
  /\ (line (fst (Lexer.nextToken (Lexer.new " ="))),
      column (fst (Lexer.nextToken (Lexer.new " ="))))
     = cursor_at " =" (Lexer.pos (Lexer.scan isspace (Lexer.new " =")))
  /\ (line (fst (Lexer.nextToken (Lexer.new " ="))),
      column (fst (Lexer.nextToken (Lexer.new " ="))))
     <> cursor_at " =" (Lexer.pos (snd (Lexer.nextToken (Lexer.new " ="))))
  /\ (Lexer.line (snd (Lexer.nextToken (Lexer.new " ="))),
      Lexer.column (snd (Lexer.nextToken (Lexer.new " ="))))
     = (line (fst (Lexer.nextToken (Lexer.new " ="))),
        column (fst (Lexer.nextToken (Lexer.new " =")))).
Proof.
  apply (nextToken_position_single (Lexer.new " =")).
  - reflexivity.
  - left. vm_compute. reflexivity.
Defined.

(** ** What an accepted declaration prints *)

(** X19: for every input that [parseDeclaration] accepts, printing the
    tree at indent 0 writes two lines: "Declaration: int" followed by the
    declared name, and, behind two spaces, "Number: " followed by the value
    of the Number token in decimal, so without the leading zeros the source
    may have had. *)
Theorem accepted_declaration_prints_two_lines
    (P : Parser.t) (err : string) (ast : ASTNode) :
  fst (Parser.parseDeclaration (P, err)) = Returned (Some ast) ->
  print 0 ast
  = ("Declaration: int " ++ value (Parser.lookahead 1 P) ++ endl)
    ++ ("  Number: " ++ string_of_int (decimal 0 (value (Parser.lookahead 3 P))) ++ endl).
Proof.
  destruct (parse_outcome P err)
    as [(c & _ & _ & Heq)|[(e & _ & _ & Heq)|(v & Hall & Hs & Heq)]];
    rewrite Heq; cbn [fst]; intros H; try discriminate H.
  assert (ast = DeclarationNode (value (Parser.lookahead 0 P))
                  (value (Parser.lookahead 1 P)) (Some (NumberNode v))) as ->
    by congruence.
  rewrite (passes_Start_int P (passes_all P Start Hall)).
  rewrite <- (stoi_number_token P v
                (passes_AfterEquals_number P (passes_all P AfterEquals Hall)) Hs).
  generalize (value (Parser.lookahead 1 P)). intros name. reflexivity.
Qed.

Lemma accepted_declaration_prints_two_lines_witness :
  print 0 (DeclarationNode "int" "n" (Some (NumberNode 7)))
  = ("Declaration: int "
     ++ value (Parser.lookahead 1 (Parser.new (Lexer.new "int n=007;"))) ++ endl)
    ++ ("  Number: "
        ++ string_of_int
             (decimal 0 (value (Parser.lookahead 3 (Parser.new (Lexer.new "int n=007;")))))
        ++ endl).
Proof.
  apply (accepted_declaration_prints_two_lines (Parser.new (Lexer.new "int n=007;"))
           EmptyString).
  vm_compute. reflexivity.
Defined.
